(** * LaunchPilot: the landing-page generator and its page

    A shallow embedding of [web/app/page.tsx]: the helpers the page uses to
    read its form ([parseFeatures], [getTone], [getTheme]) and its download
    handler, together with the composer and the exporter of [lib/generator]
    that the page calls.

    JavaScript strings are sequences of UTF-16 code units; a code unit is a
    number [N], a string a [list N].  String literals of the source are
    ASCII and are written with [js "..."]. *)

From Stdlib Require Import String Ascii NArith List Lia Bool.
From stdpp Require Import base decidable list.
Import ListNotations.

Local Open Scope N_scope.

(** ** Strings of the host language *)

Module JS.

Definition jsstring : Type := list N.

(** An ASCII literal of the source, as code units. *)
Definition js (s : string) : jsstring :=
  List.map N_of_ascii (list_ascii_of_string s).

(** [WhiteSpace] and [LineTerminator] of ECMAScript: what [trim] strips and
    what the class [\s] of a regular expression matches. *)
Definition isWhiteSpace (c : N) : bool :=
  ((9 <=? c) && (c <=? 13))          (* TAB LF VT FF CR *)
  || (c =? 32)                       (* SPACE *)
  || (c =? 160)                      (* NO-BREAK SPACE *)
  || (c =? 5760)                     (* U+1680 *)
  || ((8192 <=? c) && (c <=? 8202))  (* U+2000 .. U+200A *)
  || (c =? 8232) || (c =? 8233)      (* LINE / PARAGRAPH SEPARATOR *)
  || (c =? 8239) || (c =? 8287)      (* U+202F, U+205F *)
  || (c =? 12288)                    (* U+3000 *)
  || (c =? 65279).                   (* U+FEFF *)

Fixpoint trimStart (s : jsstring) : jsstring :=
  match s with
  | [] => []
  | c :: r => if isWhiteSpace c then trimStart r else s
  end.

Definition trimEnd (s : jsstring) : jsstring := rev (trimStart (rev s)).

(** [String.prototype.trim]. *)
Definition trim (s : jsstring) : jsstring := trimEnd (trimStart s).

(** [s.split(re)] for a regular expression [re] that matches exactly one
    code unit, those satisfying [sep]: the pieces between the matches, the
    empty ones included. *)
Fixpoint split (sep : N -> bool) (s : jsstring) : list jsstring :=
  match s with
  | [] => [[]]
  | c :: r =>
      if sep c then [] :: split sep r
      else match split sep r with
           | [] => [[c]]
           | h :: t => (c :: h) :: t
           end
  end.

(** [l.join(d)]. *)
Fixpoint join (d : jsstring) (l : list jsstring) : jsstring :=
  match l with
  | [] => []
  | [x] => x
  | x :: r => x ++ d ++ join d r
  end.

(** [Boolean(s)] on a string: the empty string is the only falsy one. *)
Definition Boolean (s : jsstring) : bool :=
  match s with [] => false | _ :: _ => true end.

(** [s.replace(/\s+/g, by)]: scanning from the left, every match of [\s+]
    is greedy, so it takes a whole run of white space; [skipRun] consumes
    the rest of the run whose first unit [replaceRuns] has just met. *)
Fixpoint replaceRuns (by_ : jsstring) (s : jsstring) : jsstring :=
  match s with
  | [] => []
  | c :: r =>
      if isWhiteSpace c
      then by_ ++ (fix skipRun (u : jsstring) : jsstring :=
                     match u with
                     | [] => []
                     | d :: v => if isWhiteSpace d then skipRun v
                                 else d :: replaceRuns by_ v
                     end) r
      else c :: replaceRuns by_ r
  end.

End JS.
Export JS.

(** ** [lib/generator]: catalogs, composer, exporter

    [page.tsx] imports [TONES], [THEMES], [composeBlueprint] and
    [buildExportHtml] from [lib/generator].  The record types below are the
    ones the page reads ([tone.id], [tone.name], [tone.headlineModifier],
    [theme.palette], [blueprint.hero], [section.items], ...). *)

Module Generator.

Record Palette := mkPalette {
  primary : jsstring;
  accent : jsstring;
  surface : jsstring;
  text : jsstring
}.

Record ToneOption := mkTone {
  tone_id : jsstring;
  tone_name : jsstring;
  headlineModifier : jsstring
}.

Record ThemeOption := mkTheme {
  theme_id : jsstring;
  theme_name : jsstring;
  theme_palette : Palette
}.

Inductive HeroLayout := split_layout | center_layout | left_layout.

Record Brief := mkBrief {
  productName : jsstring;
  oneLiner : jsstring;
  audience : jsstring;
  problem : jsstring;
  solution : jsstring;
  features : list jsstring;
  differentiator : jsstring;
  cta : jsstring
}.

Record Stat := mkStat { stat_label : jsstring; stat_value : jsstring }.

Record Hero := mkHero {
  eyebrow : jsstring;
  title : jsstring;
  subtitle : jsstring;
  primaryCta : jsstring;
  secondaryCta : jsstring;
  stats : list Stat
}.

Record Item := mkItem { item_title : jsstring; item_description : jsstring }.

Record PageSection := mkSection {
  id : jsstring;
  label : jsstring;
  headline : jsstring;
  body : jsstring;
  items : option (list Item)
}.

Record LandingBlueprint := mkBlueprint {
  hero : Hero;
  sections : list PageSection;
  palette : Palette;
  gradient : jsstring;
  heroLayout : HeroLayout;
  generatedAt : N
}.

(** *** Composer *)

(** A brief field is blank when nothing is left of it after trimming. *)
Definition isBlank (s : jsstring) : bool := negb (Boolean (trim s)).

Definition orPlaceholder (s placeholder : jsstring) : jsstring :=
  if isBlank s then placeholder else s.

(** [String(n)] for a natural number: its decimal digits. *)
Fixpoint decimalFuel (fuel : nat) (n : N) : jsstring :=
  match fuel with
  | O => [48 + n mod 10]
  | S f => if n <? 10 then [48 + n]
           else decimalFuel f (n / 10) ++ [48 + n mod 10]
  end.

Definition decimal (n : nat) : jsstring := decimalFuel n (N.of_nat n).

Definition wordCount (s : jsstring) : nat :=
  length (List.filter Boolean (split isWhiteSpace s)).

Definition placeholderFeatures : list jsstring :=
  [js "Fast setup"; js "Clear results"; js "Built to scale"].

Definition featureItem (f : jsstring) : Item :=
  {| item_title := f; item_description := f |}.

Definition gradientOf (p : Palette) : jsstring :=
  js "linear-gradient(135deg, " ++ primary p ++ js ", " ++ accent p ++ js ")".

(** The input handling of the feature list (specification, section 4.1):
    every entry trimmed, the empty ones dropped. *)
Definition normalizeFeatures (l : list jsstring) : list jsstring :=
  List.filter Boolean (List.map trim l).

(** Modelled from the spec: [composeBlueprint] of [lib/generator] is not
    among the sources; this follows section 4.1 of the specification (hero
    synthesis, five sections in fixed order, theme application, layout
    passthrough, the clock reading [now] injected).  The composer "never
    fails on malformed free text; normalizes and falls back": a blank
    field gives way to a placeholder phrase, the feature list is
    normalized, and a list with nothing left gives way to the placeholder
    features, so that every text field is non-empty for all inputs
    (section 8).  Where the specification leaves a formula open (stat
    values, headlines, placeholder phrases) a fixed one is chosen here. *)
Definition composeBlueprint (now : N) (brief : Brief) (tone : ToneOption)
    (theme : ThemeOption) (layout : HeroLayout) : LandingBlueprint :=
  let name := orPlaceholder (productName brief) (js "Your product") in
  let pitch := orPlaceholder (oneLiner brief) (js "A better way to get work done") in
  let who := orPlaceholder (audience brief) (js "modern teams") in
  let pain := orPlaceholder (problem brief) (js "Work is slower than it should be.") in
  let fix_ := orPlaceholder (solution brief) (js "A faster path from idea to launch.") in
  let edge := orPlaceholder (differentiator brief) (js "Built with care for the details that matter.") in
  let action := orPlaceholder (cta brief) (js "Get started") in
  let feats := match normalizeFeatures (features brief) with
               | [] => placeholderFeatures
               | _ :: _ => normalizeFeatures (features brief)
               end in
  {| hero :=
       {| eyebrow := name ++ js " - building for " ++ who;
          title := headlineModifier tone ++ js " " ++ pitch;
          subtitle := js "From " ++ pain ++ js " to " ++ fix_;
          primaryCta := action;
          secondaryCta := js "See how it works";
          stats :=
            [ {| stat_label := js "Features"; stat_value := decimal (length feats) |};
              {| stat_label := js "Audience words"; stat_value := decimal (wordCount who) |};
              {| stat_label := js "Sections"; stat_value := js "5" |} ] |};
     sections :=
       [ {| id := js "problem"; label := js "Problem";
            headline := js "The challenge for " ++ who;
            body := pain; items := None |};
         {| id := js "solution"; label := js "Solution";
            headline := js "How " ++ name ++ js " helps";
            body := fix_; items := None |};
         {| id := js "features"; label := js "Features";
            headline := js "What you get with " ++ name;
            body := pitch;
            items := Some (List.map featureItem feats) |};
         {| id := js "proof"; label := js "Proof";
            headline := js "Why " ++ name ++ js " is different";
            body := edge; items := None |};
         {| id := js "cta"; label := js "CTA";
            headline := js "Ready to start?";
            body := pitch; items := None |} ];
     palette := theme_palette theme;
     gradient := gradientOf (theme_palette theme);
     heroLayout := layout;
     generatedAt := now |}.

(** *** Exporter *)

Definition AMP : N := 38.
Definition LT : N := 60.
Definition GT : N := 62.
Definition QUOT : N := 34.
Definition APOS : N := 39.

Definition escapeUnit (c : N) : jsstring :=
  if c =? AMP then js "&amp;"
  else if c =? LT then js "&lt;"
  else if c =? GT then js "&gt;"
  else if c =? QUOT then js "&quot;"
  else if c =? APOS then js "&#39;"
  else [c].

Definition escapeHtml (s : jsstring) : jsstring := flat_map escapeUnit s.

(** The document is assembled from pieces of two kinds: markup written by
    the exporter, and text taken from the blueprint. *)
Inductive Piece :=
  | Lit (markup : jsstring)
  | Txt (content : jsstring).

Definition renderPiece (p : Piece) : jsstring :=
  match p with
  | Lit m => m
  | Txt t => escapeHtml t
  end.

Definition render (ps : list Piece) : jsstring := flat_map renderPiece ps.

Definition layoutStyle (l : HeroLayout) : jsstring :=
  match l with
  | split_layout => js "display:flex;flex-direction:row;align-items:center;justify-content:space-between;text-align:left"
  | center_layout => js "display:flex;flex-direction:column;align-items:center;text-align:center"
  | left_layout => js "display:flex;flex-direction:column;align-items:flex-start;text-align:left"
  end.

Definition statPieces (s : Stat) : list Piece :=
  [ Lit (js "<li><strong>"); Txt (stat_value s);
    Lit (js "</strong><span>"); Txt (stat_label s);
    Lit (js "</span></li>") ].

Definition heroPieces (bp : LandingBlueprint) : list Piece :=
  let h := hero bp in
  [ Lit (js "<header style='background:"); Txt (gradient bp);
    Lit (js ";padding:64px 32px'><div style='");
    Lit (layoutStyle (heroLayout bp));
    Lit (js "'><div><p>"); Txt (eyebrow h);
    Lit (js "</p><h1>"); Txt (title h);
    Lit (js "</h1><p>"); Txt (subtitle h);
    Lit (js "</p><p><a href='#cta'>"); Txt (primaryCta h);
    Lit (js "</a> <a href='#solution'>"); Txt (secondaryCta h);
    Lit (js "</a></p></div><ul style='list-style:none'>") ]
  ++ flat_map statPieces (stats h)
  ++ [ Lit (js "</ul></div></header>") ].

Definition itemPieces (i : Item) : list Piece :=
  [ Lit (js "<article><h3>"); Txt (item_title i);
    Lit (js "</h3><p>"); Txt (item_description i);
    Lit (js "</p></article>") ].

Definition sectionPieces (bp : LandingBlueprint) (s : PageSection) : list Piece :=
  [ Lit (js "<section id='"); Txt (id s);
    Lit (js "'><p>"); Txt (label s);
    Lit (js "</p><h2>"); Txt (headline s);
    Lit (js "</h2><p>"); Txt (body s);
    Lit (js "</p>") ]
  ++ match items s with
     | Some (i :: r) =>
         [ Lit (js "<div style='display:grid;gap:16px'>") ]
         ++ flat_map itemPieces (i :: r)
         ++ [ Lit (js "</div>") ]
     | _ =>
         [ Lit (js "<div><a href='#'>"); Txt (primaryCta (hero bp));
           Lit (js "</a><span>Need a custom export? Ask the agent in chat.</span></div>") ]
     end
  ++ [ Lit (js "</section>") ].

Definition documentPieces (bp : LandingBlueprint) : list Piece :=
  [ Lit (js "<!DOCTYPE html><html lang='en'><head><meta charset='utf-8'><title>");
    Txt (title (hero bp));
    Lit (js "</title></head><body style='margin:0;background:");
    Txt (surface (palette bp));
    Lit (js ";color:"); Txt (text (palette bp));
    Lit (js "'>") ]
  ++ heroPieces bp
  ++ [ Lit (js "<main>") ]
  ++ flat_map (sectionPieces bp) (sections bp)
  ++ [ Lit (js "</main></body></html>") ].

(** Modelled from the spec: [buildExportHtml] of [lib/generator] is not
    among the sources; this follows section 4.2 of the specification: one
    HTML5 document with inline styles and no script, the hero block
    arranged by the layout, then the sections in order, each as an item grid
    or as the single call-to-action block, every text of the blueprint
    passed through [escapeHtml]. *)
Definition buildExportHtml (bp : LandingBlueprint) : jsstring :=
  render (documentPieces bp).

End Generator.

(** ** [page.tsx] *)

Import Generator(ToneOption, ThemeOption, HeroLayout, LandingBlueprint).

Record FormState := mkForm {
  productName : jsstring;
  oneLiner : jsstring;
  audience : jsstring;
  problem : jsstring;
  solution : jsstring;
  differentiator : jsstring;
  cta : jsstring;
  featuresText : jsstring;
  toneId : jsstring;
  themeId : jsstring;
  heroLayout : HeroLayout
}.

Definition LF : N := 10.
Definition COMMA : N := 44.

(** The separator of [/\n|,/]. *)
Definition isFeatureSep (c : N) : bool := (c =? LF) || (c =? COMMA).

Definition parseFeatures (value : jsstring) : list jsstring :=
  List.filter Boolean (List.map trim (split isFeatureSep value)).

(** [xs.find(p)] is the first element satisfying [p], with [None] for
    [undefined]; [a ?? b] keeps [a] unless it is [undefined]; [xs[0]] is
    [undefined] on an empty array. *)
Definition nullish {A} (a b : option A) : option A :=
  match a with Some x => Some x | None => b end.

Definition getTone (TONES : list ToneOption) (id : jsstring) : option ToneOption :=
  nullish (List.find (fun tone => bool_decide (Generator.tone_id tone = id)) TONES)
          (TONES !! 0%nat).

Definition getTheme (THEMES : list ThemeOption) (id : jsstring) : option ThemeOption :=
  nullish (List.find (fun theme => bool_decide (Generator.theme_id theme = id)) THEMES)
          (THEMES !! 0%nat).

(** The blueprint [handleGenerate] composes from the form.  A catalog
    without entries leaves [tone] or [theme] undefined, and reading
    [theme.name] then throws: [None]. *)
Definition nextBlueprint (TONES : list ToneOption) (THEMES : list ThemeOption)
    (now : N) (form : FormState) : option LandingBlueprint :=
  match getTone TONES (toneId form), getTheme THEMES (themeId form) with
  | Some tone, Some theme =>
      let features := parseFeatures (featuresText form) in
      Some (Generator.composeBlueprint now
              {| Generator.productName := productName form;
                 Generator.oneLiner := oneLiner form;
                 Generator.audience := audience form;
                 Generator.problem := problem form;
                 Generator.solution := solution form;
                 Generator.features := features;
                 Generator.differentiator := differentiator form;
                 Generator.cta := cta form |}
              tone theme (heroLayout form))
  | _, _ => None
  end.

(** What [handleDownload] hands to the browser: a [Blob] made of the
    exported document with its media type, behind an anchor whose
    [download] attribute names the file. *)
Record Blob := mkBlob { blob_parts : list jsstring; blob_type : jsstring }.

Record DownloadLink := mkLink { link_href : Blob; link_download : jsstring }.

Section Download.

(** [String.prototype.toLowerCase] is the Unicode case mapping of the host;
    the handler is read for any such mapping. *)
Variable toLowerCase : jsstring -> jsstring.

Definition downloadName (form : FormState) : jsstring :=
  toLowerCase (replaceRuns (js "-") (productName form)) ++ js "-landing.html".

Definition handleDownload (form : FormState) (exportHtml : jsstring) : DownloadLink :=
  let blob := {| blob_parts := [exportHtml];
                 blob_type := js "text/html;charset=utf-8" |} in
  {| link_href := blob; link_download := downloadName form |}.

End Download.

(** ** Words of the claims, as predicates *)

Definition noLeadingWs (s : jsstring) : Prop :=
  match s with
  | [] => True
  | c :: _ => isWhiteSpace c = false
  end.

Definition noTrailingWs (s : jsstring) : Prop := noLeadingWs (rev s).

Definition allWs (s : jsstring) : Prop := Forall (fun c => isWhiteSpace c = true) s.

(** [t] is [e] without its leading and trailing white space. *)
Definition Trimmed (e t : jsstring) : Prop :=
  exists l r, e = l ++ t ++ r /\ allWs l /\ allWs r /\ noLeadingWs t /\ noTrailingWs t.

(** [ps] are the pieces of [s] between its separators: each piece is free
    of separators, and the pieces with one separator between neighbours
    spell [s]. *)
Inductive Splits (sep : N -> bool) : jsstring -> list jsstring -> Prop :=
  | Splits_last p :
      Forall (fun c => sep c = false) p -> Splits sep p [p]
  | Splits_more p d r ps :
      Forall (fun c => sep c = false) p -> sep d = true ->
      Splits sep r ps -> Splits sep (p ++ d :: r) (p :: ps).

(** The feature list as the description has it: split, trim every
    entry, drop the empty ones, keep the order. *)
Definition FeatureList (value : jsstring) (fs : list jsstring) : Prop :=
  exists pieces trimmed,
    Splits isFeatureSep value pieces /\
    Forall2 Trimmed pieces trimmed /\
    fs = filter (fun t => t <> []) trimmed.

(** A normal feature entry: not empty, trimmed, free of separators. *)
Definition normalEntry (e : jsstring) : Prop :=
  e <> [] /\ noLeadingWs e /\ noTrailingWs e /\
  Forall (fun c => c <> LF /\ c <> COMMA) e.

(** Every maximal run of white space of [s] replaced by [by_]. *)
Inductive RunsReplaced (by_ : jsstring) : jsstring -> jsstring -> Prop :=
  | RR_nil : RunsReplaced by_ [] []
  | RR_unit c r t :
      isWhiteSpace c = false -> RunsReplaced by_ r t ->
      RunsReplaced by_ (c :: r) (c :: t)
  | RR_run ws r t :
      ws <> [] -> allWs ws -> noLeadingWs r -> RunsReplaced by_ r t ->
      RunsReplaced by_ (ws ++ r) (by_ ++ t).

(** Catalogs to run the page on. *)
Definition boldTone : ToneOption :=
  Generator.mkTone (js "bold") (js "Bold") (js "Stop waiting.").

Definition calmTone : ToneOption :=
  Generator.mkTone (js "calm") (js "Calm") (js "Take a breath.").

Definition sandTheme : ThemeOption :=
  Generator.mkTheme (js "sand") (js "Sand")
    (Generator.mkPalette (js "#f59e0b") (js "#fde68a") (js "#fffbeb") (js "#1c1917")).

Definition forestTheme : ThemeOption :=
  Generator.mkTheme (js "forest") (js "Forest")
    (Generator.mkPalette (js "#10b981") (js "#a7f3d0") (js "#ecfdf5") (js "#064e3b")).

Definition demoTones : list ToneOption := [boldTone; calmTone].

Definition demoThemes : list ThemeOption := [sandTheme; forestTheme].

(** The ASCII part of the case mapping, to run the download handler. *)
Definition asciiLower (s : jsstring) : jsstring :=
  List.map (fun c => if (65 <=? c) && (c <=? 90) then c + 32 else c) s.

(** ** Words of the claims about the generator *)

Import Generator(LandingBlueprint, Piece, Lit, Txt).

(** The text fields of a blueprint: the copy of the hero, of its stats, of
    the sections and of their items, and the gradient expression.  (The
    palette holds the colours of the theme.) *)
Definition statFields (s : Generator.Stat) : list jsstring :=
  [Generator.stat_label s; Generator.stat_value s].

Definition itemFields (i : Generator.Item) : list jsstring :=
  [Generator.item_title i; Generator.item_description i].

Definition sectionFields (s : Generator.PageSection) : list jsstring :=
  [Generator.id s; Generator.label s; Generator.headline s; Generator.body s]
  ++ match Generator.items s with
     | Some l => flat_map itemFields l
     | None => []
     end.

Definition textFields (bp : LandingBlueprint) : list jsstring :=
  let h := Generator.hero bp in
  [Generator.eyebrow h; Generator.title h; Generator.subtitle h;
   Generator.primaryCta h; Generator.secondaryCta h]
  ++ flat_map statFields (Generator.stats h)
  ++ flat_map sectionFields (Generator.sections bp)
  ++ [Generator.gradient bp].



















(** A brief with a name and nothing else. *)
Definition acmeBrief : Generator.Brief :=
  Generator.mkBrief (js "Acme") [] (js "  ") [] [] [] [] [].


(** ** The rest of [page.tsx]: form, agent steps, timers *)

(** [INITIAL_FORM].  Reading [TONES[0].id] or [THEMES[1].id] of a catalog
    that is too short throws while the module loads: [None]. *)
Definition INITIAL_FEATURES : list jsstring :=
  [ js "Audience-tuned hero copy that sounds like your brand";
    js "Feature blocks that explain the value, not just the features";
    js "Proof sections with metrics, quotes, and visuals";
    js "Exportable HTML, React, and Notion-friendly versions" ].

Definition INITIAL_FORM (TONES : list ToneOption) (THEMES : list ThemeOption)
    : option FormState :=
  match TONES !! 0%nat, THEMES !! 1%nat with
  | Some tone0, Some theme1 =>
      Some {| productName := js "LaunchPilot";
              oneLiner := js "An AI teammate that drafts high-impact landing pages in under 60 seconds.";
              audience := js "growth teams and indie founders";
              problem := js "Your launches stall while you wrangle copywriters, designers, and approvals.";
              solution := js "LaunchPilot assembles narrative, layout, and copy automatically based on a single product brief.";
              differentiator := js "It reasons about your audience and positioning, producing on-brand pages that convert like your best marketer wrote them.";
              cta := js "Generate my launch page";
              featuresText := join [LF] INITIAL_FEATURES;
              toneId := Generator.tone_id tone0;
              themeId := Generator.theme_id theme1;
              heroLayout := Generator.split_layout |}
  | _, _ => None
  end.

(** [updateField(key, value)]: a key of the form together with a value of
    the type of that key. *)
Inductive FieldUpdate :=
  | set_productName (value : jsstring)
  | set_oneLiner (value : jsstring)
  | set_audience (value : jsstring)
  | set_problem (value : jsstring)
  | set_solution (value : jsstring)
  | set_differentiator (value : jsstring)
  | set_cta (value : jsstring)
  | set_featuresText (value : jsstring)
  | set_toneId (value : jsstring)
  | set_themeId (value : jsstring)
  | set_heroLayout (value : HeroLayout).

Inductive FormKey :=
  | k_productName | k_oneLiner | k_audience | k_problem | k_solution
  | k_differentiator | k_cta | k_featuresText | k_toneId | k_themeId | k_heroLayout.

Definition keyOf (u : FieldUpdate) : FormKey :=
  match u with
  | set_productName _ => k_productName
  | set_oneLiner _ => k_oneLiner
  | set_audience _ => k_audience
  | set_problem _ => k_problem
  | set_solution _ => k_solution
  | set_differentiator _ => k_differentiator
  | set_cta _ => k_cta
  | set_featuresText _ => k_featuresText
  | set_toneId _ => k_toneId
  | set_themeId _ => k_themeId
  | set_heroLayout _ => k_heroLayout
  end.

(** The updater [(current) => ({ ...current, [key]: value })]. *)
Definition updateField (u : FieldUpdate) (current : FormState) : FormState :=
  let '(mkForm pn ol au pr so di ct ft ti th hl) := current in
  match u with
  | set_productName v => mkForm v ol au pr so di ct ft ti th hl
  | set_oneLiner v => mkForm pn v au pr so di ct ft ti th hl
  | set_audience v => mkForm pn ol v pr so di ct ft ti th hl
  | set_problem v => mkForm pn ol au v so di ct ft ti th hl
  | set_solution v => mkForm pn ol au pr v di ct ft ti th hl
  | set_differentiator v => mkForm pn ol au pr so v ct ft ti th hl
  | set_cta v => mkForm pn ol au pr so di v ft ti th hl
  | set_featuresText v => mkForm pn ol au pr so di ct v ti th hl
  | set_toneId v => mkForm pn ol au pr so di ct ft v th hl
  | set_themeId v => mkForm pn ol au pr so di ct ft ti v hl
  | set_heroLayout v => mkForm pn ol au pr so di ct ft ti th v
  end.

(** What a key holds, as a value of one type, to compare readings. *)
Inductive FieldValue :=
  | textValue (v : jsstring)
  | layoutValue (v : HeroLayout).

Definition readField (k : FormKey) (f : FormState) : FieldValue :=
  match k with
  | k_productName => textValue (productName f)
  | k_oneLiner => textValue (oneLiner f)
  | k_audience => textValue (audience f)
  | k_problem => textValue (problem f)
  | k_solution => textValue (solution f)
  | k_differentiator => textValue (differentiator f)
  | k_cta => textValue (cta f)
  | k_featuresText => textValue (featuresText f)
  | k_toneId => textValue (toneId f)
  | k_themeId => textValue (themeId f)
  | k_heroLayout => layoutValue (heroLayout f)
  end.

Definition valueOf (u : FieldUpdate) : FieldValue :=
  match u with
  | set_productName v | set_oneLiner v | set_audience v | set_problem v
  | set_solution v | set_differentiator v | set_cta v | set_featuresText v
  | set_toneId v | set_themeId v => textValue v
  | set_heroLayout v => layoutValue v
  end.

Inductive Status := pending | active | done.

Record AgentStep := mkStep {
  step_id : jsstring;
  step_title : jsstring;
  caption : jsstring;
  status : Status
}.

(** [Partial<AgentStep>]: every key may be absent. *)
Record StepPatch := mkPatch {
  patch_id : option jsstring;
  patch_title : option jsstring;
  patch_caption : option jsstring;
  patch_status : option Status
}.

Definition noPatch : StepPatch := mkPatch None None None None.

(** [{ ...step, status, ...extra }]: the keys present in [extra] win. *)
Definition patchStep (step : AgentStep) (st : Status) (extra : StepPatch) : AgentStep :=
  {| step_id := default (step_id step) (patch_id extra);
     step_title := default (step_title step) (patch_title extra);
     caption := default (caption step) (patch_caption extra);
     status := default st (patch_status extra) |}.

(** The updater of [syncStep(index, status, extra)]; [extra] left out is the
    empty patch.  An [index] that is no position of the array equals no
    [stepIndex]. *)
Definition syncStep (index : nat) (st : Status) (extra : StepPatch)
    (current : list AgentStep) : list AgentStep :=
  imap (fun stepIndex step =>
          if bool_decide (stepIndex = index) then patchStep step st extra else step)
       current.

(** The callbacks handed to [schedule], with what their closures hold. *)
Inductive Callback :=
  | structureDone
  | composeNow (form : FormState) (tone : ToneOption) (theme : ThemeOption)
               (features : list jsstring)
  | finishRun
  | resetCopied.

Record Timer := mkTimer {
  timer_id : nat;
  timer_due : N;
  timer_callback : Callback
}.

(** The state of [Home] ([useState], [useRef]) and of the window it runs
    in: the timers not yet fired, the next timer id, the clock in
    milliseconds, the clipboard and the writes to it not yet settled. *)
Record Page := mkPage {
  form : FormState;
  blueprint : LandingBlueprint;
  steps : list AgentStep;
  loading : bool;
  copied : bool;
  timersRef : list nat;
  pendingTimers : list Timer;
  nextTimer : nat;
  clock : N;
  pendingWrites : list jsstring;
  clipboard : option jsstring
}.

(** What the page takes from outside: the catalogs and the two functions of
    [lib/generator] (the composer with the clock it reads), and the case
    mapping and the time format of the host. *)
Record Host := mkHost {
  TONES : list ToneOption;
  THEMES : list ThemeOption;
  composeBlueprint : N -> Generator.Brief -> ToneOption -> ThemeOption ->
                     HeroLayout -> LandingBlueprint;
  buildExportHtml : LandingBlueprint -> jsstring;
  toLowerCase : jsstring -> jsstring;
  toLocaleTimeString : N -> jsstring
}.

Definition setForm (f : FormState) (p : Page) : Page :=
  mkPage f (blueprint p) (steps p) (loading p) (copied p) (timersRef p)
         (pendingTimers p) (nextTimer p) (clock p) (pendingWrites p) (clipboard p).

Definition setBlueprint (b : LandingBlueprint) (p : Page) : Page :=
  mkPage (form p) b (steps p) (loading p) (copied p) (timersRef p)
         (pendingTimers p) (nextTimer p) (clock p) (pendingWrites p) (clipboard p).

Definition setSteps (s : list AgentStep) (p : Page) : Page :=
  mkPage (form p) (blueprint p) s (loading p) (copied p) (timersRef p)
         (pendingTimers p) (nextTimer p) (clock p) (pendingWrites p) (clipboard p).

Definition setLoading (l : bool) (p : Page) : Page :=
  mkPage (form p) (blueprint p) (steps p) l (copied p) (timersRef p)
         (pendingTimers p) (nextTimer p) (clock p) (pendingWrites p) (clipboard p).

Definition setCopied (c : bool) (p : Page) : Page :=
  mkPage (form p) (blueprint p) (steps p) (loading p) c (timersRef p)
         (pendingTimers p) (nextTimer p) (clock p) (pendingWrites p) (clipboard p).

Definition advanceClock (dt : N) (p : Page) : Page :=
  mkPage (form p) (blueprint p) (steps p) (loading p) (copied p) (timersRef p)
         (pendingTimers p) (nextTimer p) (clock p + dt) (pendingWrites p) (clipboard p).

(** [schedule(delay, callback)]: [window.setTimeout] hands out a fresh id,
    which is pushed on [timersRef.current]. *)
Definition schedule (delay : N) (callback : Callback) (p : Page) : Page :=
  let timer := nextTimer p in
  mkPage (form p) (blueprint p) (steps p) (loading p) (copied p)
         (timersRef p ++ [timer])
         (pendingTimers p ++ [mkTimer timer (clock p + delay) callback])
         (S timer) (clock p) (pendingWrites p) (clipboard p).

(** [window.clearTimeout(timer)]. *)
Definition clearTimeout (timer : nat) (l : list Timer) : list Timer :=
  List.filter (fun t => negb (Nat.eqb (timer_id t) timer)) l.

(** [timersRef.current.forEach((timer) => window.clearTimeout(timer))]. *)
Definition clearTimers (p : Page) : Page :=
  mkPage (form p) (blueprint p) (steps p) (loading p) (copied p) (timersRef p)
         (fold_left (fun l timer => clearTimeout timer l) (timersRef p) (pendingTimers p))
         (nextTimer p) (clock p) (pendingWrites p) (clipboard p).

Definition resetTimersRef (p : Page) : Page :=
  mkPage (form p) (blueprint p) (steps p) (loading p) (copied p) []
         (pendingTimers p) (nextTimer p) (clock p) (pendingWrites p) (clipboard p).

(** The cleanup of the effect, run when [Home] unmounts. *)
Definition unmount (p : Page) : Page := clearTimers p.

(** The argument of [composeBlueprint] built from a form. *)
Definition formBrief (f : FormState) (features : list jsstring) : Generator.Brief :=
  {| Generator.productName := productName f;
     Generator.oneLiner := oneLiner f;
     Generator.audience := audience f;
     Generator.problem := problem f;
     Generator.solution := solution f;
     Generator.features := features;
     Generator.differentiator := differentiator f;
     Generator.cta := cta f |}.

Definition BULLET : N := 8226.

Definition freshSteps (h : Host) (tone : ToneOption) (theme : ThemeOption)
    : list AgentStep :=
  [ mkStep (js "analyze") (js "Decode the brief")
      (js "Understanding audience, promise, and differentiators") active;
    mkStep (js "structure") (js "Map the narrative")
      (js "Assembling hero, proof, workflow, and CTA") pending;
    mkStep (js "polish") (js "Polish the layout")
      (js "Applying " ++ Generator.theme_name theme ++ js " theme with "
       ++ toLowerCase h (Generator.tone_name tone) ++ js " tone") pending ].

(** [handleGenerate].  With [tone] or [theme] undefined, building
    [freshSteps] throws after the timers are cleared. *)
Definition handleGenerate (h : Host) (p : Page) : Page :=
  let p1 := resetTimersRef (clearTimers p) in
  match getTone (TONES h) (toneId (form p)), getTheme (THEMES h) (themeId (form p)) with
  | Some tone, Some theme =>
      let features := parseFeatures (featuresText (form p)) in
      schedule 1750 finishRun
        (schedule 1200 (composeNow (form p) tone theme features)
           (schedule 650 structureDone
              (setLoading true (setSteps (freshSteps h tone theme) p1))))
  | _, _ => p1
  end.

(** What a callback does when its timer fires. *)
Definition runCallback (h : Host) (c : Callback) (p : Page) : Page :=
  match c with
  | structureDone =>
      setSteps (syncStep 1 active noPatch (syncStep 0 done noPatch (steps p))) p
  | composeNow f tone theme features =>
      let nextBlueprint :=
        composeBlueprint h (clock p) (formBrief f features) tone theme (heroLayout f) in
      let p1 := setBlueprint nextBlueprint p in
      setSteps (syncStep 2 active noPatch (syncStep 1 done noPatch (steps p1))) p1
  | finishRun =>
      let extra :=
        mkPatch None None
          (Some (js "Ready to export " ++ [BULLET; 32] ++ toLocaleTimeString h (clock p)))
          None in
      setLoading false (setSteps (syncStep 2 done extra (steps p)) p)
  | resetCopied => setCopied false p
  end.

(** The timers set before the timer [timer]. *)
Fixpoint earlier (timer : nat) (l : list Timer) : list Timer :=
  match l with
  | [] => []
  | t :: r => if Nat.eqb (timer_id t) timer then [] else t :: earlier timer r
  end.

(** A timer fires when it is due, and after the timers set before it that
    are due no later. *)
Definition mayFire (p : Page) (t : Timer) : bool :=
  (timer_due t <=? clock p)
  && forallb (fun u => timer_due t <? timer_due u)
             (earlier (timer_id t) (pendingTimers p)).

Definition dropTimer (timer : nat) (p : Page) : Page :=
  mkPage (form p) (blueprint p) (steps p) (loading p) (copied p) (timersRef p)
         (clearTimeout timer (pendingTimers p))
         (nextTimer p) (clock p) (pendingWrites p) (clipboard p).

Definition fire (h : Host) (timer : nat) (p : Page) : Page :=
  match List.find (fun t => Nat.eqb (timer_id t) timer) (pendingTimers p) with
  | Some t => if mayFire p t then runCallback h (timer_callback t) (dropTimer timer p)
              else p
  | None => p
  end.

(** [handleCopy] up to its [await]: the write of the exported document of
    this render is under way. *)
Definition handleCopy (h : Host) (p : Page) : Page :=
  mkPage (form p) (blueprint p) (steps p) (loading p) (copied p) (timersRef p)
         (pendingTimers p) (nextTimer p) (clock p)
         (pendingWrites p ++ [buildExportHtml h (blueprint p)]) (clipboard p).

(** [handleCopy] after its [await]: the oldest write settles; a rejected
    one is logged and changes nothing. *)
Definition clipboardSettles (ok : bool) (p : Page) : Page :=
  match pendingWrites p with
  | [] => p
  | w :: rest =>
      let p1 :=
        mkPage (form p) (blueprint p) (steps p) (loading p) (copied p) (timersRef p)
               (pendingTimers p) (nextTimer p) (clock p) rest
               (if ok then Some w else clipboard p) in
      if ok then schedule 2000 resetCopied (setCopied true p1) else p1
  end.

(** What happens to the page: the clicks (the Generate button is disabled
    while [loading]), the edits of the form, time passing, a timer firing,
    a clipboard write settling. *)
Inductive Event :=
  | ClickGenerate
  | ClickCopy
  | ClickReset
  | Edit (u : FieldUpdate)
  | Tick (dt : N)
  | Fire (timer : nat)
  | ClipboardSettles (ok : bool).

Definition step (h : Host) (p : Page) (e : Event) : Page :=
  match e with
  | ClickGenerate => if loading p then p else handleGenerate h p
  | ClickCopy => handleCopy h p
  | ClickReset =>
      match INITIAL_FORM (TONES h) (THEMES h) with
      | Some f => setForm f p
      | None => p
      end
  | Edit u => setForm (updateField u (form p)) p
  | Tick dt => advanceClock dt p
  | Fire timer => fire h timer p
  | ClipboardSettles ok => clipboardSettles ok p
  end.

Definition run (h : Host) (es : list Event) (p : Page) : Page :=
  fold_left (step h) es p.

(** [buildDefaultBlueprint], read at the clock [now]. *)
Definition buildDefaultBlueprint (h : Host) (now : N) : option LandingBlueprint :=
  match INITIAL_FORM (TONES h) (THEMES h) with
  | Some f =>
      match getTone (TONES h) (toneId f), getTheme (THEMES h) (themeId f) with
      | Some tone, Some theme =>
          Some (composeBlueprint h now (formBrief f (parseFeatures (featuresText f)))
                  tone theme (heroLayout f))
      | _, _ => None
      end
  | None => None
  end.

(** [Home] at its first render. *)
Definition initialPage (h : Host) (now : N) : option Page :=
  match INITIAL_FORM (TONES h) (THEMES h), buildDefaultBlueprint h now with
  | Some f, Some b => Some (mkPage f b [] false false [] [] 0 now [] None)
  | _, _ => None
  end.

Inductive Reachable (h : Host) : Page -> Prop :=
  | reach_initial now p : initialPage h now = Some p -> Reachable h p
  | reach_step p e : Reachable h p -> Reachable h (step h p e).

(** A host to run the page on. *)
Definition demoHost : Host :=
  mkHost demoTones demoThemes Generator.composeBlueprint Generator.buildExportHtml
         asciiLower (fun t => Generator.decimal (N.to_nat t)).

(** ** Words of the further properties *)

(** A line of the features box: not empty, trimmed, without a newline. *)
Definition lineEntry (e : jsstring) : Prop :=
  e <> [] /\ noLeadingWs e /\ noTrailingWs e /\ Forall (fun c => c <> LF) e.

Definition statuses (p : Page) : list Status := List.map status (steps p).

Definition isResetCopied (t : Timer) : Prop := timer_callback t = resetCopied.

(** The timers of the window are the page's own: every pending timer is
    recorded in [timersRef], and ids are not handed out twice. *)
Record TimersInv (p : Page) : Prop := mkTimersInv {
  timers_owned : Forall (fun t => In (timer_id t) (timersRef p)) (pendingTimers p);
  timers_fresh : Forall (fun t => (timer_id t < nextTimer p)%nat) (pendingTimers p);
  timers_nodup : NoDup (List.map timer_id (pendingTimers p))
}.

(** Where a generation stands: the timers of the run still pending, in the
    order they were set, before the timers of the Copy button. *)
Inductive Phase (p : Page) : Prop :=
  | phase_idle :
      loading p = false ->
      Forall isResetCopied (pendingTimers p) ->
      statuses p = [] \/ statuses p = [done; done; done] ->
      Phase p
  | phase_analyze tS tC tF copies :
      loading p = true ->
      pendingTimers p = tS :: tC :: tF :: copies ->
      Forall isResetCopied copies ->
      timer_callback tS = structureDone ->
      (exists f tone theme fs, timer_callback tC = composeNow f tone theme fs) ->
      timer_callback tF = finishRun ->
      timer_due tS < timer_due tC -> timer_due tC < timer_due tF ->
      statuses p = [active; pending; pending] ->
      Phase p
  | phase_structure tC tF copies :
      loading p = true ->
      pendingTimers p = tC :: tF :: copies ->
      Forall isResetCopied copies ->
      (exists f tone theme fs, timer_callback tC = composeNow f tone theme fs) ->
      timer_callback tF = finishRun ->
      timer_due tC < timer_due tF ->
      statuses p = [done; active; pending] ->
      Phase p
  | phase_polish tF copies :
      loading p = true ->
      pendingTimers p = tF :: copies ->
      Forall isResetCopied copies ->
      timer_callback tF = finishRun ->
      statuses p = [done; done; active] ->
      Phase p.

Definition isSettle (e : Event) : bool :=
  match e with ClipboardSettles _ => true | _ => false end.

Definition isEdit (e : Event) : bool :=
  match e with Edit _ | ClickReset | ClickCopy => true | _ => false end.

(** The label reads "Copied" and no timer is left to take it back. *)
Definition copiedForGood (q : Page) : Prop :=
  copied q = true
  /\ Forall (fun t => timer_callback t <> resetCopied) (pendingTimers q).

(** What a run of the agent reads and writes of a page. *)
Definition RunView (q : Page) (pend : list Timer) (st : list AgentStep)
    (bp : LandingBlueprint) (clk : N) (ld : bool) : Prop :=
  pendingTimers q = pend /\ steps q = st /\ blueprint q = bp
  /\ clock q = clk /\ loading q = ld.

Definition touchesClipboard (e : Event) : bool :=
  match e with ClickCopy | ClipboardSettles _ => true | _ => false end.

(** What an event does to the form, if anything. *)
Definition editForm (h : Host) (f : FormState) (e : Event) : FormState :=
  match e with
  | Edit u => updateField u f
  | ClickReset => default f (INITIAL_FORM (TONES h) (THEMES h))
  | _ => f
  end.

(** * Properties *)

(** ** Trimming *)

Lemma trimStart_split (s : jsstring) :
  exists ws, s = ws ++ trimStart s /\ allWs ws.
Proof.
  induction s as [|c r [ws [Hr Hws]]]; simpl.
  - exists []. split; [reflexivity | constructor].
  - destruct (isWhiteSpace c) eqn:Hc.
    + exists (c :: ws). split; [simpl; congruence | constructor; assumption].
    + exists []. split; [reflexivity | constructor].
Qed.

Lemma trimStart_noLeading (s : jsstring) : noLeadingWs (trimStart s).
Proof.
  induction s as [|c r IH]; simpl; [exact I |].
  destruct (isWhiteSpace c) eqn:Hc; [exact IH | exact Hc].
Qed.

Lemma trimStart_id (s : jsstring) : noLeadingWs s -> trimStart s = s.
Proof. destruct s as [|c r]; simpl; [reflexivity | intros ->; reflexivity]. Qed.

Lemma trimStart_run (ws r : jsstring) :
  allWs ws -> noLeadingWs r -> trimStart (ws ++ r) = r.
Proof.
  intros Hws Hr. induction Hws as [|c ws Hc _ IH]; simpl.
  - apply trimStart_id, Hr.
  - rewrite Hc. exact IH.
Qed.

Lemma trimEnd_split (s : jsstring) :
  exists ws, s = trimEnd s ++ ws /\ allWs ws.
Proof.
  unfold trimEnd. destruct (trimStart_split (rev s)) as [ws [E Hws]].
  exists (rev ws). split.
  - rewrite <- rev_app_distr, <- E, rev_involutive. reflexivity.
  - unfold allWs. apply Forall_forall. intros c Hin.
    apply (proj1 (Forall_forall _ _) Hws). apply list_elem_of_In.
    apply list_elem_of_In in Hin. apply in_rev. exact Hin.
Qed.

Lemma trimEnd_noTrailing (s : jsstring) : noTrailingWs (trimEnd s).
Proof.
  unfold noTrailingWs, trimEnd. rewrite rev_involutive.
  apply trimStart_noLeading.
Qed.

Lemma trimEnd_noLeading (s : jsstring) : noLeadingWs s -> noLeadingWs (trimEnd s).
Proof.
  intros H. destruct (trimEnd_split s) as [ws [E _]].
  destruct (trimEnd s) as [|c t]; [exact I |].
  rewrite E in H. exact H.
Qed.

Lemma trimEnd_id (s : jsstring) : noTrailingWs s -> trimEnd s = s.
Proof.
  unfold noTrailingWs, trimEnd. intros H.
  rewrite trimStart_id by exact H. apply rev_involutive.
Qed.

Lemma trim_Trimmed (e : jsstring) : Trimmed e (trim e).
Proof.
  unfold trim.
  destruct (trimStart_split e) as [l [El Hl]].
  destruct (trimEnd_split (trimStart e)) as [r [Er Hr]].
  exists l, r. repeat split; try assumption.
  - rewrite <- Er. exact El.
  - apply trimEnd_noLeading, trimStart_noLeading.
  - apply trimEnd_noTrailing.
Qed.

Lemma trim_id (s : jsstring) : noLeadingWs s -> noTrailingWs s -> trim s = s.
Proof.
  intros Hl Ht. unfold trim. rewrite (trimStart_id s Hl). apply trimEnd_id, Ht.
Qed.

Lemma allWs_rev (s : jsstring) : allWs s -> allWs (rev s).
Proof.
  unfold allWs. rewrite !Forall_forall. intros H c Hin. apply H.
  apply list_elem_of_In. apply list_elem_of_In in Hin. apply in_rev. exact Hin.
Qed.

Lemma trimStart_allWs (s : jsstring) : allWs s -> trimStart s = [].
Proof.
  intros H. rewrite <- (app_nil_r s). apply trimStart_run; [exact H | exact I].
Qed.

Lemma noLeadingWs_app (t r : jsstring) : t <> [] -> noLeadingWs t -> noLeadingWs (t ++ r).
Proof. destruct t; [congruence | intros _ H; exact H]. Qed.

Lemma Trimmed_unique (e t : jsstring) : Trimmed e t -> t = trim e.
Proof.
  intros (l & r & -> & Hl & Hr & Hlead & Htrail). unfold trim.
  destruct t as [|c t'].
  - simpl. rewrite trimStart_allWs; [reflexivity |].
    unfold allWs in *. apply Forall_app. split; assumption.
  - rewrite trimStart_run; [| exact Hl | exact Hlead].
    unfold trimEnd. rewrite rev_app_distr.
    rewrite trimStart_run; [symmetry; apply rev_involutive | apply allWs_rev, Hr | exact Htrail].
Qed.

(** ** Splitting *)

Lemma Splits_cons_unit (sep : N -> bool) c r h t :
  sep c = false -> Splits sep r (h :: t) -> Splits sep (c :: r) ((c :: h) :: t).
Proof.
  intros Hc H. inversion H; subst.
  - apply Splits_last. constructor; assumption.
  - apply (Splits_more sep (c :: h) d r0 t); [constructor |..]; assumption.
Qed.

Lemma split_Splits (sep : N -> bool) (s : jsstring) : Splits sep s (split sep s).
Proof.
  induction s as [|c r IH]; simpl.
  - apply Splits_last. constructor.
  - destruct (sep c) eqn:Hc.
    + apply (Splits_more sep [] c r); [constructor | exact Hc | exact IH].
    + destruct (split sep r) as [|h t]; [inversion IH |].
      apply Splits_cons_unit; assumption.
Qed.

Lemma split_sepfree (sep : N -> bool) (p : jsstring) :
  Forall (fun c => sep c = false) p -> split sep p = [p].
Proof.
  induction 1 as [|c p Hc _ IH]; simpl; [reflexivity |].
  rewrite Hc, IH. reflexivity.
Qed.

Lemma split_app_sep (sep : N -> bool) (p : jsstring) d r :
  Forall (fun c => sep c = false) p -> sep d = true ->
  split sep (p ++ d :: r) = p :: split sep r.
Proof.
  intros Hp Hd. induction Hp as [|c p Hc _ IH]; simpl.
  - rewrite Hd. reflexivity.
  - rewrite Hc, IH. reflexivity.
Qed.

Lemma Splits_unique (sep : N -> bool) (s : jsstring) ps :
  Splits sep s ps -> ps = split sep s.
Proof.
  induction 1 as [p Hp | p d r ps Hp Hd _ IH].
  - symmetry. apply split_sepfree, Hp.
  - rewrite split_app_sep by assumption. f_equal. exact IH.
Qed.

Lemma split_pieces_sepfree (sep : N -> bool) (s : jsstring) :
  Forall (Forall (fun c => sep c = false)) (split sep s).
Proof.
  generalize (split_Splits sep s).
  induction 1; constructor; try assumption. constructor.
Qed.

Lemma split_join (sep : N -> bool) (d : N) (l : list jsstring) :
  sep d = true -> l <> [] ->
  Forall (Forall (fun c => sep c = false)) l ->
  split sep (join [d] l) = l.
Proof.
  intros Hd Hne Hall. revert Hne.
  induction Hall as [|x r Hx Hr IH]; intros Hne; [destruct Hne; reflexivity |].
  destruct r as [|y r'].
  - simpl. apply split_sepfree, Hx.
  - change (join [d] (x :: y :: r')) with (x ++ d :: join [d] (y :: r')).
    rewrite split_app_sep by assumption.
    rewrite IH by discriminate. reflexivity.
Qed.

Lemma filter_Boolean (l : list jsstring) :
  List.filter Boolean l = filter (fun t => t <> []) l.
Proof.
  induction l as [|x r IH]; [reflexivity |].
  destruct x as [|c x]; simpl.
  - rewrite filter_cons_False by (intros H; apply H; reflexivity). exact IH.
  - rewrite filter_cons_True by discriminate. f_equal. exact IH.
Qed.

Lemma Forall2_Trimmed_map (pieces trimmed : list jsstring) :
  Forall2 Trimmed pieces trimmed <-> trimmed = List.map trim pieces.
Proof.
  split.
  - induction 1 as [|e t es ts Ht _ IH]; simpl; [reflexivity |].
    rewrite (Trimmed_unique e t Ht), IH. reflexivity.
  - intros ->. induction pieces; simpl; constructor; [apply trim_Trimmed | assumption].
Qed.

Lemma FeatureList_parseFeatures (value : jsstring) (fs : list jsstring) :
  FeatureList value fs <-> fs = parseFeatures value.
Proof.
  unfold FeatureList, parseFeatures. split.
  - intros (pieces & trimmed & Hs & Ht & ->).
    apply Splits_unique in Hs. apply Forall2_Trimmed_map in Ht. subst.
    symmetry. apply filter_Boolean.
  - intros ->. exists (split isFeatureSep value), (List.map trim (split isFeatureSep value)).
    split; [apply split_Splits |].
    split; [apply Forall2_Trimmed_map; reflexivity | apply filter_Boolean].
Qed.

(** ** Feature parsing *)

Lemma Forall_trimStart (P : N -> Prop) (s : jsstring) : Forall P s -> Forall P (trimStart s).
Proof.
  induction 1 as [|c r Hc Hr IH]; simpl; [constructor |].
  destruct (isWhiteSpace c); [exact IH | constructor; assumption].
Qed.

Lemma Forall_rev_units (P : N -> Prop) (s : jsstring) : Forall P s -> Forall P (rev s).
Proof.
  rewrite !Forall_forall. intros H c Hin. apply H.
  apply list_elem_of_In. apply list_elem_of_In in Hin. apply in_rev. exact Hin.
Qed.

Lemma Forall_trim (P : N -> Prop) (s : jsstring) : Forall P s -> Forall P (trim s).
Proof.
  intros H. unfold trim, trimEnd.
  apply Forall_rev_units, Forall_trimStart, Forall_rev_units, Forall_trimStart, H.
Qed.

Lemma isFeatureSep_false (c : N) : isFeatureSep c = false <-> c <> LF /\ c <> COMMA.
Proof.
  unfold isFeatureSep. rewrite orb_false_iff, !N.eqb_neq. reflexivity.
Qed.

Lemma parseFeatures_normal (value : jsstring) : Forall normalEntry (parseFeatures value).
Proof.
  unfold parseFeatures. apply Forall_forall. intros e He.
  apply list_elem_of_In, filter_In in He. destruct He as [Hin Hne].
  apply in_map_iff in Hin. destruct Hin as (p & <- & Hp).
  destruct (trim_Trimmed p) as (l & r & _ & _ & _ & Hlead & Htrail).
  repeat split; try assumption.
  - destruct (trim p); [discriminate | discriminate].
  - apply Forall_trim.
    pose proof (split_pieces_sepfree isFeatureSep value) as Hall.
    rewrite Forall_forall in Hall. specialize (Hall p).
    eapply Forall_impl; [apply Hall, list_elem_of_In, Hp |].
    intros c Hc. apply isFeatureSep_false, Hc.
Qed.

Lemma parseFeatures_join_normal (l : list jsstring) :
  Forall normalEntry l -> parseFeatures (join [LF] l) = l.
Proof.
  intros Hall. unfold parseFeatures.
  destruct l as [|x r]; [reflexivity |].
  rewrite (split_join isFeatureSep LF); [| reflexivity | discriminate |].
  - induction Hall as [|e es (Hne & Hlead & Htrail & _) _ IH]; [reflexivity |].
    simpl. rewrite (trim_id e Hlead Htrail).
    destruct e; [congruence |]. simpl. f_equal. exact IH.
  - eapply Forall_impl; [exact Hall |].
    intros e (_ & _ & _ & Hsep). eapply Forall_impl; [exact Hsep |].
    intros c Hc. apply isFeatureSep_false, Hc.
Qed.

(** C3: the feature list of a raw text is what splitting it on newlines and
    commas, trimming every entry and dropping the empty entries gives, in
    the order of the text, and nothing else; the text
    "Fast sync, Offline mode<LF>Realtime alerts" gives the three entries
    "Fast sync", "Offline mode", "Realtime alerts". *)
Theorem parseFeatures_split_trim_drop (value : jsstring) :
  (forall fs, FeatureList value fs <-> fs = parseFeatures value)
  /\ parseFeatures (js "Fast sync, Offline mode" ++ [LF] ++ js "Realtime alerts")
     = [js "Fast sync"; js "Offline mode"; js "Realtime alerts"].
Proof.
  split.
  - intros fs. apply FeatureList_parseFeatures.
  - vm_compute. reflexivity.
Qed.

(** C10: every entry of a parsed feature list is non-empty, has no white
    space at either end and holds no newline and no comma; joining the list
    with newlines and parsing again gives the same list. *)
Theorem parseFeatures_normal_stable (s : jsstring) :
  Forall normalEntry (parseFeatures s)
  /\ parseFeatures (join [LF] (parseFeatures s)) = parseFeatures s.
Proof.
  split.
  - apply parseFeatures_normal.
  - apply parseFeatures_join_normal, parseFeatures_normal.
Qed.

(** ** Catalog lookup *)

Lemma nullish_find_none {A} (p : A -> bool) (l : list A) :
  (forall x, x ∈ l -> p x = false) -> nullish (List.find p l) (l !! 0%nat) = l !! 0%nat.
Proof.
  intros H. destruct (List.find p l) as [x|] eqn:E; [| reflexivity].
  apply find_some in E. destruct E as [Hin Hp].
  rewrite (H x) in Hp; [discriminate | apply list_elem_of_In, Hin].
Qed.

Lemma nullish_find_member {A} (p : A -> bool) (l : list A) :
  l <> [] -> exists x, nullish (List.find p l) (l !! 0%nat) = Some x /\ x ∈ l.
Proof.
  intros Hne. destruct (List.find p l) as [x|] eqn:E; simpl.
  - exists x. split; [reflexivity |]. apply find_some in E.
    apply list_elem_of_In, E.
  - destruct l as [|y r]; [congruence |]. exists y. split; [reflexivity |].
    apply list_elem_of_here.
Qed.

(** C2, as it stands, fails: with two themes in the catalog and an id that
    names neither, [getTheme] gives the first theme, not the second. *)
Lemma getTheme_unknown_is_not_second :
  ~ (forall (THEMES : list ThemeOption) (id : jsstring),
       (forall th, th ∈ THEMES -> Generator.theme_id th <> id) ->
       getTheme THEMES id = THEMES !! 1%nat).
Proof.
  intros H. specialize (H demoThemes (js "midnight")).
  assert (Hno : forall th, th ∈ demoThemes -> Generator.theme_id th <> js "midnight").
  { intros th Hin. unfold demoThemes in Hin.
    apply list_elem_of_In in Hin. simpl in Hin.
    destruct Hin as [<- | [<- | []]]; vm_compute; discriminate. }
  specialize (H Hno). vm_compute in H. discriminate H.
Qed.

(** C2, amended: an id that names no entry of the catalog resolves to the
    first entry, for tones and for themes alike. *)
Theorem unknown_id_resolves_to_first
    (tone0 : ToneOption) (tones : list ToneOption)
    (theme0 : ThemeOption) (themes : list ThemeOption) (toneId themeId : jsstring) :
  (forall t, t ∈ tone0 :: tones -> Generator.tone_id t <> toneId) ->
  (forall th, th ∈ theme0 :: themes -> Generator.theme_id th <> themeId) ->
  getTone (tone0 :: tones) toneId = Some tone0
  /\ getTheme (theme0 :: themes) themeId = Some theme0.
Proof.
  intros Htone Htheme. unfold getTone, getTheme. split.
  - rewrite nullish_find_none; [reflexivity |].
    intros t Hin. apply bool_decide_eq_false, Htone, Hin.
  - rewrite nullish_find_none; [reflexivity |].
    intros th Hin. apply bool_decide_eq_false, Htheme, Hin.
Qed.

(** C9: on non-empty catalogs every id, the empty one included, resolves to
    a tone of [TONES] and to a theme of [THEMES]; the result is never
    [undefined]. *)
Theorem lookup_total_in_catalog
    (TONES : list ToneOption) (THEMES : list ThemeOption) (id : jsstring) :
  TONES <> [] -> THEMES <> [] ->
  (exists t, getTone TONES id = Some t /\ t ∈ TONES)
  /\ (exists th, getTheme THEMES id = Some th /\ th ∈ THEMES).
Proof.
  intros Ht Hth. split; [apply nullish_find_member, Ht | apply nullish_find_member, Hth].
Qed.

Example getTheme_known : getTheme demoThemes (js "forest") = Some forestTheme.
Proof. vm_compute. reflexivity. Qed.

Example getTone_empty_id : getTone demoTones [] = Some boldTone.
Proof. vm_compute. reflexivity. Qed.

Lemma unknown_id_resolves_to_first_witness :
  (forall t, t ∈ demoTones -> Generator.tone_id t <> js "loud")
  /\ (forall th, th ∈ demoThemes -> Generator.theme_id th <> js "midnight")
  /\ getTone demoTones (js "loud") = Some boldTone
  /\ getTheme demoThemes (js "midnight") = Some sandTheme.
Proof.
  assert (Ht : forall t, t ∈ demoTones -> Generator.tone_id t <> js "loud").
  { intros t Hin. apply list_elem_of_In in Hin. simpl in Hin.
    destruct Hin as [<- | [<- | []]]; vm_compute; discriminate. }
  assert (Hth : forall th, th ∈ demoThemes -> Generator.theme_id th <> js "midnight").
  { intros th Hin. apply list_elem_of_In in Hin. simpl in Hin.
    destruct Hin as [<- | [<- | []]]; vm_compute; discriminate. }
  split; [exact Ht |]. split; [exact Hth |].
  exact (unknown_id_resolves_to_first _ _ _ _ _ _ Ht Hth).
Defined.

Lemma lookup_total_in_catalog_witness :
  demoTones <> [] /\ demoThemes <> []
  /\ (exists t, getTone demoTones [] = Some t /\ t ∈ demoTones)
  /\ (exists th, getTheme demoThemes [] = Some th /\ th ∈ demoThemes).
Proof.
  assert (Ht : demoTones <> []) by discriminate.
  assert (Hth : demoThemes <> []) by discriminate.
  split; [exact Ht |]. split; [exact Hth |].
  exact (lookup_total_in_catalog demoTones demoThemes [] Ht Hth).
Defined.

(** ** The download *)

Lemma replaceRuns_cons (by_ : jsstring) (c : N) (r : jsstring) :
  replaceRuns by_ (c :: r)
  = if isWhiteSpace c then by_ ++ replaceRuns by_ (trimStart r)
    else c :: replaceRuns by_ r.
Proof.
  simpl. destruct (isWhiteSpace c); [| reflexivity]. f_equal.
  induction r as [|d v IH]; [reflexivity |].
  simpl. destruct (isWhiteSpace d) eqn:Hd.
  - exact IH.
  - simpl. rewrite Hd. reflexivity.
Qed.

Lemma trimStart_length (s : jsstring) : (length (trimStart s) <= length s)%nat.
Proof.
  destruct (trimStart_split s) as [ws [E _]].
  rewrite E at 2. rewrite length_app. lia.
Qed.

Lemma replaceRuns_RunsReplaced (by_ s : jsstring) :
  RunsReplaced by_ s (replaceRuns by_ s).
Proof.
  remember (length s) as n eqn:Hn.
  assert (Hle : (length s <= n)%nat) by lia. clear Hn.
  revert s Hle. induction n as [|n IH]; intros s Hle.
  - destruct s; [constructor | simpl in Hle; lia].
  - destruct s as [|c r]; [constructor |].
    simpl in Hle. rewrite replaceRuns_cons.
    destruct (isWhiteSpace c) eqn:Hc.
    + destruct (trimStart_split r) as [ws [E Hws]].
      replace (c :: r) with ((c :: ws) ++ trimStart r) by (simpl; congruence).
      apply RR_run.
      * discriminate.
      * constructor; assumption.
      * apply trimStart_noLeading.
      * apply IH. pose proof (trimStart_length r). lia.
    + apply RR_unit; [exact Hc | apply IH; lia].
Qed.

Lemma RunsReplaced_unique (by_ s t : jsstring) :
  RunsReplaced by_ s t -> t = replaceRuns by_ s.
Proof.
  induction 1 as [| c r t Hc _ IH | ws r t Hne Hws Hr _ IH].
  - reflexivity.
  - rewrite replaceRuns_cons, Hc. f_equal. exact IH.
  - destruct Hws as [|c ws' Hc Hws']; [destruct Hne; reflexivity |].
    simpl app. rewrite replaceRuns_cons, Hc.
    rewrite trimStart_run by assumption. f_equal. exact IH.
Qed.

Example handleDownload_ex :
  handleDownload asciiLower
    (mkForm (js "Launch  Pilot" ++ [9; 32] ++ js "X") [] [] [] [] [] [] [] [] []
            Generator.split_layout)
    (js "<!DOCTYPE html>")
  = {| link_href := {| blob_parts := [js "<!DOCTYPE html>"];
                       blob_type := js "text/html;charset=utf-8" |};
       link_download := js "launch-pilot-x-landing.html" |}.
Proof. vm_compute. reflexivity. Qed.

(** C8: the download is named after the product name of the form: every
    maximal run of white space replaced by one hyphen, the result
    lower-cased, "-landing.html" appended; its content is the exported
    document, handed over with the media type text/html and charset
    utf-8. *)
Theorem handleDownload_name_and_content
    (toLowerCase : jsstring -> jsstring) (form : FormState) (exportHtml : jsstring) :
  (exists hyphenated,
      RunsReplaced (js "-") (productName form) hyphenated
      /\ (forall h, RunsReplaced (js "-") (productName form) h <-> h = hyphenated)
      /\ link_download (handleDownload toLowerCase form exportHtml)
         = toLowerCase hyphenated ++ js "-landing.html")
  /\ blob_parts (link_href (handleDownload toLowerCase form exportHtml)) = [exportHtml]
  /\ blob_type (link_href (handleDownload toLowerCase form exportHtml))
     = js "text/html;charset=utf-8".
Proof.
  split; [| split; reflexivity].
  exists (replaceRuns (js "-") (productName form)).
  split; [apply replaceRuns_RunsReplaced |]. split; [| reflexivity].
  intros h. split.
  - apply RunsReplaced_unique.
  - intros ->. apply replaceRuns_RunsReplaced.
Qed.

(** ** The composer *)

Section Composer.

Import Generator.

Lemma orPlaceholder_nonempty (s p : jsstring) : p <> [] -> orPlaceholder s p <> [].
Proof.
  intros Hp. unfold orPlaceholder, isBlank.
  destruct s as [|c r]; [exact Hp |].
  destruct (Boolean (trim (c :: r))); [discriminate | exact Hp].
Qed.


Lemma app_nonempty_l (a b : jsstring) : a <> [] -> a ++ b <> [].
Proof. destruct a; [congruence | discriminate]. Qed.

Lemma app_nonempty_r (a b : jsstring) : b <> [] -> a ++ b <> [].
Proof. destruct a; [intros H; exact H | discriminate]. Qed.

Lemma decimal_nonempty (n : nat) : decimal n <> [].
Proof.
  unfold decimal. generalize (N.of_nat n). induction n as [|n IH]; intros m; simpl.
  - discriminate.
  - destruct (m <? 10); [discriminate |]. apply app_nonempty_r. discriminate.
Qed.

Lemma featureItems_nonempty (fs : list jsstring) :
  Forall (fun f => f <> []) fs ->
  Forall (fun f => f <> []) (flat_map itemFields (List.map featureItem fs)).
Proof.
  induction 1 as [|f fs Hf _ IH]; simpl; [constructor |].
  constructor; [exact Hf |]. constructor; [exact Hf | exact IH].
Qed.

Lemma placeholderFeatures_nonempty : Forall (fun f : jsstring => f <> []) placeholderFeatures.
Proof. repeat constructor; discriminate. Qed.

Local Ltac nonempty_field :=
  first
    [ discriminate
    | apply orPlaceholder_nonempty; discriminate
    | apply decimal_nonempty
    | apply app_nonempty_l; discriminate
    | apply app_nonempty_r; apply app_nonempty_l; discriminate ].

Lemma normalizeFeatures_nonempty (l : list jsstring) :
  Forall (fun f => f <> []) (normalizeFeatures l).
Proof.
  unfold normalizeFeatures. apply Forall_forall. intros f Hf.
  apply list_elem_of_In, filter_In in Hf. destruct Hf as [_ Hf].
  destruct f; [discriminate Hf | discriminate].
Qed.

Lemma textFields_nonempty (now : N) (brief : Brief) (tone : ToneOption)
    (theme : ThemeOption) (layout : HeroLayout) :
  Forall (fun f => f <> []) (textFields (composeBlueprint now brief tone theme layout)).
Proof.
  unfold textFields, composeBlueprint. cbv zeta.
  cbn [hero sections gradient stats eyebrow title subtitle primaryCta secondaryCta].
  apply Forall_app. split; [| apply Forall_app; split; [| apply Forall_app; split]].
  - repeat (constructor; [nonempty_field |]). constructor.
  - cbn [flat_map statFields stat_label stat_value app].
    repeat (constructor; [nonempty_field |]). constructor.
  - cbn [flat_map sectionFields id label headline body items app].
    repeat (constructor; [nonempty_field |]).
    apply Forall_app. split.
    + apply featureItems_nonempty.
      pose proof (normalizeFeatures_nonempty (features brief)) as Hn.
      destruct (normalizeFeatures (features brief));
        [apply placeholderFeatures_nonempty | exact Hn].
    + repeat (constructor; [nonempty_field |]). constructor.
  - constructor; [| constructor]. unfold gradientOf.
    apply app_nonempty_l. discriminate.
Qed.


Example decimal_ex : decimal 1203 = js "1203".
Proof. vm_compute. reflexivity. Qed.

Example wordCount_ex : wordCount (js "growth teams and  indie founders") = 5%nat.
Proof. vm_compute. reflexivity. Qed.

End Composer.

(** C4: whatever the brief, the tone, the theme, the layout and the clock,
    the composed blueprint has exactly five sections, with the identifiers
    problem, solution, features, proof, cta and the labels Problem,
    Solution, Features, Proof, CTA, in this order. *)
Theorem composeBlueprint_five_sections
    (now : N) (brief : Generator.Brief) (tone : ToneOption) (theme : ThemeOption)
    (layout : HeroLayout) :
  let bp := Generator.composeBlueprint now brief tone theme layout in
  length (Generator.sections bp) = 5%nat
  /\ List.map Generator.id (Generator.sections bp)
     = [js "problem"; js "solution"; js "features"; js "proof"; js "cta"]
  /\ List.map Generator.label (Generator.sections bp)
     = [js "Problem"; js "Solution"; js "Features"; js "Proof"; js "CTA"].
Proof. repeat split. Qed.

(** C7: the layout of the composed blueprint is the layout given to the
    composer, for split, for center and for left. *)
Theorem composeBlueprint_layout_passthrough
    (now : N) (brief : Generator.Brief) (tone : ToneOption) (theme : ThemeOption)
    (layout : HeroLayout) :
  Generator.heroLayout (Generator.composeBlueprint now brief tone theme layout) = layout
  /\ (layout = Generator.split_layout \/ layout = Generator.center_layout
      \/ layout = Generator.left_layout).
Proof.
  split; [reflexivity |].
  destruct layout; [left | right; left | right; right]; reflexivity.
Qed.


(** What the page composes: the features come from [parseFeatures], so
    the blueprint of any form has no empty text field. *)
Lemma nextBlueprint_fields_nonempty
    (TONES : list ToneOption) (THEMES : list ThemeOption) (now : N) (form : FormState) :
  TONES <> [] -> THEMES <> [] ->
  exists bp, nextBlueprint TONES THEMES now form = Some bp
             /\ Forall (fun f => f <> []) (textFields bp)
             /\ Generator.heroLayout bp = heroLayout form.
Proof.
  intros Ht Hth. unfold nextBlueprint.
  destruct (nullish_find_member
              (fun tone => bool_decide (Generator.tone_id tone = toneId form)) TONES Ht)
    as (tone & Etone & _).
  destruct (nullish_find_member
              (fun theme => bool_decide (Generator.theme_id theme = themeId form)) THEMES Hth)
    as (theme & Etheme & _).
  unfold getTone, getTheme. rewrite Etone, Etheme. cbv zeta.
  eexists. split; [reflexivity |]. split; [| reflexivity].
  apply textFields_nonempty.
Qed.

(** ** The exporter *)

Section Exporter.

Import Generator.
















End Exporter.

Section Scanning.

Import Generator.












End Scanning.

Section Embedding.

Import Generator.






End Embedding.

(** * Further properties of [page.tsx] *)

(** ** Lookup by id *)

Lemma find_first_match {A} (key : A -> jsstring) (l : list A) (id : jsstring) (x : A) :
  In x l -> key x = id ->
  exists y l1 l2,
    List.find (fun z => bool_decide (key z = id)) l = Some y
    /\ l = l1 ++ y :: l2 /\ key y = id
    /\ Forall (fun z => key z <> id) l1.
Proof.
  induction l as [|z r IH]; intros Hin Hkey; [destruct Hin |].
  simpl. destruct (bool_decide (key z = id)) eqn:E.
  - apply bool_decide_eq_true in E.
    exists z, [], r. repeat split; [exact E | constructor].
  - apply bool_decide_eq_false in E.
    destruct Hin as [-> | Hin]; [contradiction |].
    destruct (IH Hin Hkey) as (y & l1 & l2 & Hf & -> & Hy & Hl1).
    exists y, (z :: l1), l2. repeat split; try assumption.
    constructor; assumption.
Qed.

Lemma find_member_nodup {A} (key : A -> jsstring) (l : list A) (x : A) :
  NoDup (List.map key l) -> In x l ->
  List.find (fun z => bool_decide (key z = key x)) l = Some x.
Proof.
  induction l as [|z r IH]; intros Hnd Hin; [destruct Hin |].
  simpl in Hnd. apply NoDup_cons in Hnd. destruct Hnd as [Hz Hnd].
  simpl. destruct Hin as [-> | Hin].
  - rewrite bool_decide_eq_true_2 by reflexivity. reflexivity.
  - rewrite bool_decide_eq_false_2; [apply IH; assumption |].
    intros E. apply Hz. rewrite E. apply list_elem_of_In, in_map, Hin.
Qed.

(** X1: when some entry of the catalog has the id asked for, the lookup
    gives the earliest such entry and never the fallback. *)
Theorem lookup_gives_first_match
    (TONES : list ToneOption) (THEMES : list ThemeOption) (id : jsstring) :
  ((exists t, In t TONES /\ Generator.tone_id t = id) ->
   exists t l1 l2,
     getTone TONES id = Some t /\ TONES = l1 ++ t :: l2 /\ Generator.tone_id t = id
     /\ Forall (fun u => Generator.tone_id u <> id) l1)
  /\ ((exists th, In th THEMES /\ Generator.theme_id th = id) ->
      exists th l1 l2,
        getTheme THEMES id = Some th /\ THEMES = l1 ++ th :: l2
        /\ Generator.theme_id th = id
        /\ Forall (fun u => Generator.theme_id u <> id) l1).
Proof.
  split.
  - intros (t & Hin & Hid).
    destruct (find_first_match Generator.tone_id TONES id t Hin Hid)
      as (y & l1 & l2 & Hf & Hl & Hy & Hl1).
    exists y, l1, l2. unfold getTone. rewrite Hf. repeat split; assumption.
  - intros (t & Hin & Hid).
    destruct (find_first_match Generator.theme_id THEMES id t Hin Hid)
      as (y & l1 & l2 & Hf & Hl & Hy & Hl1).
    exists y, l1, l2. unfold getTheme. rewrite Hf. repeat split; assumption.
Qed.

(** X2: in catalogs whose ids are pairwise distinct, looking up the id of
    an entry gives back that entry. *)
Theorem lookup_of_member_id
    (TONES : list ToneOption) (THEMES : list ThemeOption)
    (tone : ToneOption) (theme : ThemeOption) :
  NoDup (List.map Generator.tone_id TONES) ->
  NoDup (List.map Generator.theme_id THEMES) ->
  In tone TONES -> In theme THEMES ->
  getTone TONES (Generator.tone_id tone) = Some tone
  /\ getTheme THEMES (Generator.theme_id theme) = Some theme.
Proof.
  intros Hn1 Hn2 H1 H2. unfold getTone, getTheme.
  rewrite (find_member_nodup Generator.tone_id TONES tone Hn1 H1).
  rewrite (find_member_nodup Generator.theme_id THEMES theme Hn2 H2).
  split; reflexivity.
Qed.

Lemma lookup_of_member_id_witness :
  getTone demoTones (Generator.tone_id calmTone) = Some calmTone
  /\ getTheme demoThemes (Generator.theme_id forestTheme) = Some forestTheme.
Proof.
  apply (lookup_of_member_id demoTones demoThemes calmTone forestTheme).
  - repeat constructor; rewrite ?list_elem_of_In; simpl; intuition discriminate.
  - repeat constructor; rewrite ?list_elem_of_In; simpl; intuition discriminate.
  - simpl. auto.
  - simpl. auto.
Defined.

(** ** The form *)

(** X3: the law of [updateField]: the key written reads back the value,
    every other key reads as before, a second write to the same key
    overrides the first, and writes to different keys commute. *)
Theorem updateField_laws (u v : FieldUpdate) (f : FormState) :
  readField (keyOf u) (updateField u f) = valueOf u
  /\ (forall k, k <> keyOf u -> readField k (updateField u f) = readField k f)
  /\ (keyOf u = keyOf v -> updateField u (updateField v f) = updateField u f)
  /\ (keyOf u <> keyOf v ->
      updateField u (updateField v f) = updateField v (updateField u f)).
Proof.
  destruct f. split; [| split; [| split]].
  - destruct u; reflexivity.
  - intros k Hk. destruct u, k; simpl in *; try reflexivity; congruence.
  - intros Hk. destruct u, v; simpl in *; try reflexivity; discriminate Hk.
  - intros Hk. destruct u, v; simpl in *; try reflexivity; congruence.
Qed.

Lemma getTone_head (tone0 : ToneOption) (tones : list ToneOption) :
  getTone (tone0 :: tones) (Generator.tone_id tone0) = Some tone0.
Proof.
  unfold getTone. simpl. rewrite bool_decide_eq_true_2 by reflexivity. reflexivity.
Qed.

Lemma getTheme_second (theme0 theme1 : ThemeOption) (themes : list ThemeOption) :
  getTheme (theme0 :: theme1 :: themes) (Generator.theme_id theme1)
  = Some (if bool_decide (Generator.theme_id theme0 = Generator.theme_id theme1)
          then theme0 else theme1).
Proof.
  unfold getTheme. simpl.
  destruct (bool_decide (Generator.theme_id theme0 = Generator.theme_id theme1));
    [reflexivity |].
  rewrite bool_decide_eq_true_2 by reflexivity. reflexivity.
Qed.

Lemma initialPage_view (h : Host) (now : N) (p : Page) :
  initialPage h now = Some p ->
  steps p = [] /\ loading p = false /\ copied p = false
  /\ pendingTimers p = [] /\ timersRef p = []
  /\ INITIAL_FORM (TONES h) (THEMES h) = Some (form p).
Proof.
  unfold initialPage.
  destruct (INITIAL_FORM (TONES h) (THEMES h)) as [f|]; [| discriminate].
  destruct (buildDefaultBlueprint h now) as [b|]; [| discriminate].
  intros [= <-]. repeat split.
Qed.

(** X4: a catalog too short keeps the page from loading; otherwise the
    first render has the default form, no steps and no timers, and its
    blueprint is composed from that form with the first tone and with the
    second theme, or with the first theme when the two share their id. *)
Theorem initialPage_loads (h : Host) (now : N) :
  (initialPage h now = None <-> TONES h = [] \/ (length (THEMES h) < 2)%nat)
  /\ (forall p, initialPage h now = Some p ->
      exists tone0 tones theme0 theme1 themes,
        TONES h = tone0 :: tones /\ THEMES h = theme0 :: theme1 :: themes
        /\ INITIAL_FORM (TONES h) (THEMES h) = Some (form p)
        /\ toneId (form p) = Generator.tone_id tone0
        /\ themeId (form p) = Generator.theme_id theme1
        /\ blueprint p
           = composeBlueprint h now
               (formBrief (form p) (parseFeatures (featuresText (form p))))
               tone0
               (if bool_decide (Generator.theme_id theme0 = Generator.theme_id theme1)
                then theme0 else theme1)
               Generator.split_layout
        /\ steps p = [] /\ loading p = false /\ copied p = false
        /\ pendingTimers p = [] /\ timersRef p = []).
Proof.
  unfold initialPage, buildDefaultBlueprint, INITIAL_FORM.
  destruct (TONES h) as [|tone0 tones].
  { split; [split; [intros _; left; reflexivity | reflexivity] | discriminate]. }
  destruct (THEMES h) as [|theme0 [|theme1 themes]].
  { split; [split; [intros _; right; simpl; lia | reflexivity] | discriminate]. }
  { split; [split; [intros _; right; simpl; lia | reflexivity] | discriminate]. }
  cbn [lookup list_lookup toneId themeId].
  rewrite getTone_head, getTheme_second. split.
  - split; [discriminate | intros [H | H]; [discriminate | simpl in H; lia]].
  - intros p [= <-]. exists tone0, tones, theme0, theme1, themes.
    cbn [form blueprint steps loading copied pendingTimers timersRef
         toneId themeId featuresText heroLayout].
    repeat split; reflexivity.
Qed.

(** ** The agent steps *)

Lemma syncStep_lookup (index : nat) (st : Status) (extra : StepPatch)
    (current : list AgentStep) (j : nat) :
  syncStep index st extra current !! j
  = (fun s => if bool_decide (j = index) then patchStep s st extra else s)
      <$> current !! j.
Proof. unfold syncStep. apply list_lookup_imap. Qed.

Lemma imap_map_unchanged {A B} (g : A -> B) (f : nat -> A -> A) (l : list A) :
  (forall k a, g (f k a) = g a) -> List.map g (imap f l) = List.map g l.
Proof.
  revert f. induction l as [|a r IH]; intros f H; [reflexivity |].
  cbn [imap List.map]. rewrite H. f_equal. apply IH. intros k b. apply H.
Qed.

Lemma patchStep_noPatch (s : AgentStep) (st : Status) :
  patchStep s st noPatch = mkStep (step_id s) (step_title s) (caption s) st.
Proof. reflexivity. Qed.

(** X5: [syncStep] changes the step at [index] and no other: the array
    keeps its length, every other position keeps its step, an [index]
    outside the array changes nothing, and without [extra] the ids, titles
    and captions of all steps stay as they were. *)
Theorem syncStep_frame (index : nat) (st : Status) (extra : StepPatch)
    (current : list AgentStep) :
  length (syncStep index st extra current) = length current
  /\ (forall j, j <> index -> syncStep index st extra current !! j = current !! j)
  /\ (forall s, current !! index = Some s ->
        syncStep index st extra current !! index = Some (patchStep s st extra))
  /\ ((length current <= index)%nat -> syncStep index st extra current = current)
  /\ List.map (fun s => (step_id s, step_title s, caption s))
       (syncStep index st noPatch current)
     = List.map (fun s => (step_id s, step_title s, caption s)) current.
Proof.
  split; [apply length_imap |]. split; [| split; [| split]].
  - intros j Hj. rewrite syncStep_lookup, bool_decide_eq_false_2 by exact Hj.
    destruct (current !! j); reflexivity.
  - intros s Hs. rewrite syncStep_lookup, Hs, bool_decide_eq_true_2 by reflexivity.
    reflexivity.
  - intros Hle. apply list_eq. intros j. rewrite syncStep_lookup.
    destruct (current !! j) as [s|] eqn:E; [| reflexivity].
    apply lookup_lt_Some in E.
    rewrite bool_decide_eq_false_2 by lia. reflexivity.
  - unfold syncStep. apply imap_map_unchanged. intros k s.
    destruct (bool_decide (k = index)); reflexivity.
Qed.

(** X6: two [syncStep]s on different steps give the same array in either
    order; on the same step, without [extra], the later status stands. *)
Theorem syncStep_compose (i j : nat) (a b : Status) (x y : StepPatch)
    (current : list AgentStep) :
  (i <> j ->
   syncStep i a x (syncStep j b y current) = syncStep j b y (syncStep i a x current))
  /\ syncStep i a noPatch (syncStep i b noPatch current) = syncStep i a noPatch current.
Proof.
  split.
  - intros Hij. apply list_eq. intros k. rewrite !syncStep_lookup.
    destruct (current !! k) as [s|]; [| reflexivity]. cbn [fmap option_fmap option_map].
    destruct (bool_decide (k = i)) eqn:Ei, (bool_decide (k = j)) eqn:Ej; try reflexivity.
    apply bool_decide_eq_true in Ei, Ej. congruence.
  - apply list_eq. intros k. rewrite !syncStep_lookup.
    destruct (current !! k) as [s|]; [| reflexivity]. cbn [fmap option_fmap option_map].
    destruct (bool_decide (k = i)); reflexivity.
Qed.

(** ** More on feature parsing *)

Lemma split_app (sep : N -> bool) (a : jsstring) (d : N) (b : jsstring) :
  sep d = true -> split sep (a ++ d :: b) = split sep a ++ split sep b.
Proof.
  intros Hd. induction a as [|c r IH]; simpl.
  - rewrite Hd. reflexivity.
  - destruct (sep c); [rewrite IH; reflexivity |].
    rewrite IH. pose proof (split_Splits sep r) as Hs.
    destruct (split sep r); [inversion Hs | reflexivity].
Qed.

Lemma trim_nil_iff (p : jsstring) : trim p = [] <-> allWs p.
Proof.
  split.
  - intros H. destruct (trim_Trimmed p) as (l & r & E & Hl & Hr & _).
    rewrite H in E. rewrite E. apply Forall_app. split; assumption.
  - intros H. unfold trim. rewrite (trimStart_allWs p H). reflexivity.
Qed.

Lemma Splits_allWs (s : jsstring) (ps : list jsstring) :
  Splits isFeatureSep s ps ->
  Forall allWs ps <-> Forall (fun c => isWhiteSpace c = true \/ c = COMMA) s.
Proof.
  assert (Hsep : forall c, isFeatureSep c = true -> isWhiteSpace c = true \/ c = COMMA).
  { intros c Hc. unfold isFeatureSep in Hc. apply orb_true_iff in Hc.
    destruct Hc as [Hc | Hc]; apply N.eqb_eq in Hc; subst; [left | right]; reflexivity. }
  assert (Hpiece : forall p, Forall (fun c => isFeatureSep c = false) p ->
            allWs p <-> Forall (fun c => isWhiteSpace c = true \/ c = COMMA) p).
  { intros p Hp. unfold allWs. split; intros H.
    - eapply Forall_impl; [exact H |]. intros c Hc. left. exact Hc.
    - induction Hp as [|c r Hc _ IH]; [constructor |].
      apply Forall_cons in H. destruct H as [H Hr]. constructor; [| apply IH, Hr].
      destruct H as [H | ->]; [exact H | discriminate Hc]. }
  induction 1 as [p Hp | p d r ps Hp Hd _ IH].
  - rewrite Forall_singleton. apply Hpiece, Hp.
  - rewrite Forall_cons, Forall_app, Forall_cons, IH, (Hpiece p Hp).
    specialize (Hsep d Hd). tauto.
Qed.

Lemma filter_Boolean_nil (l : list jsstring) :
  List.filter Boolean l = [] <-> Forall (fun t => t = []) l.
Proof.
  induction l as [|x r IH]; simpl.
  - split; [constructor | reflexivity].
  - destruct x as [|c x]; simpl.
    + rewrite IH, Forall_cons. tauto.
    + split; [discriminate | intros H; apply Forall_cons in H; destruct H as [H _]; discriminate H].
Qed.

(** X7: the feature list is empty exactly when the text holds nothing but
    white space (newlines included) and commas. *)
Theorem parseFeatures_nil_iff (value : jsstring) :
  parseFeatures value = []
  <-> Forall (fun c => isWhiteSpace c = true \/ c = COMMA) value.
Proof.
  rewrite <- (Splits_allWs value _ (split_Splits isFeatureSep value)).
  unfold parseFeatures. rewrite filter_Boolean_nil, Forall_map.
  split; intros H; (eapply Forall_impl; [exact H |]); intros p Hp; apply trim_nil_iff, Hp.
Qed.

(** X8: texts put together with a newline or a comma between them parse to
    their feature lists put together. *)
Theorem parseFeatures_app (a b : jsstring) (d : N) :
  d = LF \/ d = COMMA ->
  parseFeatures (a ++ d :: b) = parseFeatures a ++ parseFeatures b.
Proof.
  intros Hd. unfold parseFeatures.
  rewrite split_app, List.map_app, List.filter_app; [reflexivity |].
  destruct Hd as [-> | ->]; reflexivity.
Qed.

Lemma parseFeatures_app_witness :
  parseFeatures (js "Fast sync, Offline mode" ++ COMMA :: js " Alerts")
  = parseFeatures (js "Fast sync, Offline mode") ++ parseFeatures (js " Alerts").
Proof. apply parseFeatures_app. right. reflexivity. Defined.

Lemma Forall_neq_forallb (d : N) (e : jsstring) :
  forallb (fun c => negb (c =? d)) e = true -> Forall (fun c => c <> d) e.
Proof.
  induction e as [|c r IH]; simpl; [constructor |].
  intros H. apply andb_true_iff in H. destruct H as [Hc Hr].
  constructor; [| apply IH, Hr]. apply negb_true_iff, N.eqb_neq in Hc. exact Hc.
Qed.

(** X9: lines joined by newlines parse back to the same lines exactly when
    no line holds a comma. *)
Theorem lines_parse_back_iff_no_comma (lines : list jsstring) :
  Forall lineEntry lines ->
  parseFeatures (join [LF] lines) = lines
  <-> Forall (Forall (fun c => c <> COMMA)) lines.
Proof.
  intros Hlines. split.
  - intros H. pose proof (parseFeatures_normal (join [LF] lines)) as Hn.
    rewrite H in Hn. eapply Forall_impl; [exact Hn |].
    intros e (_ & _ & _ & He). eapply Forall_impl; [exact He |].
    intros c [_ Hc]. exact Hc.
  - intros H. apply parseFeatures_join_normal.
    apply Forall_forall. intros e He.
    rewrite Forall_forall in Hlines, H.
    destruct (Hlines e He) as (Hne & Hl & Ht & Hlf).
    repeat split; try assumption.
    specialize (H e He). rewrite Forall_forall in Hlf, H.
    apply Forall_forall. intros c Hc. split; [apply Hlf, Hc | apply H, Hc].
Qed.

(** The four feature lines of [INITIAL_FORM] hold commas: they do not
    parse back to themselves. *)
Lemma lines_parse_back_iff_no_comma_witness :
  Forall lineEntry INITIAL_FEATURES
  /\ parseFeatures (join [LF] INITIAL_FEATURES) <> INITIAL_FEATURES.
Proof.
  assert (H : Forall lineEntry INITIAL_FEATURES).
  { unfold INITIAL_FEATURES.
    repeat (constructor;
            [unfold lineEntry; split; [| split; [| split]];
             [vm_compute; discriminate | vm_compute; reflexivity
             | vm_compute; reflexivity
             | apply Forall_neq_forallb; vm_compute; reflexivity] |]).
    constructor. }
  split; [exact H |].
  intros E. apply (proj1 (lines_parse_back_iff_no_comma INITIAL_FEATURES H)) in E.
  apply Forall_cons in E. destruct E as [_ E].
  apply Forall_cons in E. destruct E as [E _].
  rewrite Forall_forall in E. apply (E COMMA); [| reflexivity].
  apply list_elem_of_In. vm_compute. tauto.
Defined.

(** ** More on the download name *)

Lemma RunsReplaced_no_ws (by_ s t : jsstring) :
  Forall (fun c => isWhiteSpace c = false) by_ ->
  RunsReplaced by_ s t -> Forall (fun c => isWhiteSpace c = false) t.
Proof.
  intros Hby. induction 1 as [| c r t Hc _ IH | ws r t _ _ _ _ IH].
  - constructor.
  - constructor; assumption.
  - apply Forall_app. split; assumption.
Qed.

Lemma RunsReplaced_shorter (d : N) (s t : jsstring) :
  RunsReplaced [d] s t -> (length t <= length s)%nat.
Proof.
  induction 1 as [| c r t _ _ IH | ws r t Hne _ _ _ IH]; simpl.
  - lia.
  - lia.
  - rewrite length_app. destruct ws; [congruence | simpl; lia].
Qed.

Lemma replaceRuns_no_ws_id (by_ s : jsstring) :
  Forall (fun c => isWhiteSpace c = false) s -> replaceRuns by_ s = s.
Proof.
  induction 1 as [|c r Hc _ IH]; [reflexivity |].
  rewrite replaceRuns_cons, Hc, IH. reflexivity.
Qed.

(** X10: the name of the download is the lower-cased form of a string
    without white space that is no longer than the product name; a product
    name without white space is that string itself, and replacing the runs
    a second time changes nothing. *)
Theorem downloadName_hyphenated (toLowerCase : jsstring -> jsstring) (form : FormState) :
  exists hyphenated,
    downloadName toLowerCase form = toLowerCase hyphenated ++ js "-landing.html"
    /\ Forall (fun c => isWhiteSpace c = false) hyphenated
    /\ (length hyphenated <= length (productName form))%nat
    /\ (Forall (fun c => isWhiteSpace c = false) (productName form) ->
        hyphenated = productName form)
    /\ replaceRuns (js "-") hyphenated = hyphenated.
Proof.
  exists (replaceRuns (js "-") (productName form)).
  assert (Hno : Forall (fun c => isWhiteSpace c = false)
                  (replaceRuns (js "-") (productName form))).
  { apply (RunsReplaced_no_ws (js "-") (productName form));
      [repeat constructor | apply replaceRuns_RunsReplaced]. }
  split; [reflexivity |]. split; [exact Hno |]. split; [| split].
  - apply (RunsReplaced_shorter 45), (replaceRuns_RunsReplaced (js "-")).
  - apply replaceRuns_no_ws_id.
  - apply replaceRuns_no_ws_id, Hno.
Qed.

(** ** Timers *)

Section Timers.

Variable h : Host.

Lemma clearTimeout_Forall (P : Timer -> Prop) (i : nat) (l : list Timer) :
  Forall P l -> Forall P (clearTimeout i l).
Proof.
  induction 1 as [|t r Ht _ IH]; simpl; [constructor |].
  destruct (negb (timer_id t =? i)%nat); [constructor |]; assumption.
Qed.

Lemma clearTimeout_In (i : nat) (l : list Timer) (t : Timer) :
  In t (clearTimeout i l) <-> In t l /\ timer_id t <> i.
Proof.
  unfold clearTimeout. rewrite filter_In, negb_true_iff, Nat.eqb_neq. reflexivity.
Qed.

Lemma clearTimeout_nodup (i : nat) (l : list Timer) :
  NoDup (List.map timer_id l) -> NoDup (List.map timer_id (clearTimeout i l)).
Proof.
  induction l as [|t r IH]; simpl; [intros H; exact H |].
  intros H. apply NoDup_cons in H. destruct H as [Ht Hr].
  destruct (negb (timer_id t =? i)%nat); [| apply IH, Hr].
  simpl. apply NoDup_cons. split; [| apply IH, Hr].
  intros Hin. apply Ht. apply list_elem_of_In in Hin. apply list_elem_of_In.
  apply in_map_iff in Hin. destruct Hin as (u & Hu & Hin).
  apply clearTimeout_In in Hin. apply in_map_iff. exists u. tauto.
Qed.

Lemma clearTimeout_notin (i : nat) (l : list Timer) :
  Forall (fun t => timer_id t <> i) l -> clearTimeout i l = l.
Proof.
  induction 1 as [|t r Ht _ IH]; simpl; [reflexivity |].
  apply Nat.eqb_neq in Ht. rewrite Ht. simpl. f_equal. exact IH.
Qed.

Lemma clearTimeout_cons_eq (t : Timer) (l : list Timer) :
  clearTimeout (timer_id t) (t :: l) = clearTimeout (timer_id t) l.
Proof. simpl. rewrite Nat.eqb_refl. reflexivity. Qed.

Lemma clearTimeout_cons_ne (i : nat) (t : Timer) (l : list Timer) :
  timer_id t <> i -> clearTimeout i (t :: l) = t :: clearTimeout i l.
Proof. intros H. simpl. apply Nat.eqb_neq in H. rewrite H. reflexivity. Qed.

Lemma nodup_ids_cons (t : Timer) (l : list Timer) :
  NoDup (List.map timer_id (t :: l)) ->
  Forall (fun u => timer_id u <> timer_id t) l /\ NoDup (List.map timer_id l).
Proof.
  simpl. intros H. apply NoDup_cons in H. destruct H as [Ht Hl].
  split; [| exact Hl]. apply Forall_forall. intros u Hu E. apply Ht.
  rewrite <- E. apply list_elem_of_In, in_map, list_elem_of_In, Hu.
Qed.

Lemma clear_all (ids : list nat) (l : list Timer) :
  Forall (fun t => In (timer_id t) ids) l ->
  fold_left (fun l timer => clearTimeout timer l) ids l = [].
Proof.
  revert l. induction ids as [|i ids IH]; intros l H; simpl.
  - destruct H as [|t r Ht _]; [reflexivity | destruct Ht].
  - apply IH. apply Forall_forall. intros t Ht.
    apply list_elem_of_In, clearTimeout_In in Ht. destruct Ht as [Ht Hne].
    rewrite Forall_forall in H. apply list_elem_of_In in Ht.
    destruct (H t Ht) as [E | Hin]; [congruence | exact Hin].
Qed.

Lemma clearTimers_none (p : Page) :
  TimersInv p -> pendingTimers (clearTimers p) = [].
Proof. intros [Ho _ _]. apply clear_all, Ho. Qed.

Lemma TimersInv_same (p q : Page) :
  timersRef q = timersRef p -> pendingTimers q = pendingTimers p ->
  nextTimer q = nextTimer p -> TimersInv p -> TimersInv q.
Proof.
  intros E1 E2 E3 [Ho Hf Hn]. constructor; rewrite ?E1, ?E2, ?E3; assumption.
Qed.

Lemma TimersInv_schedule (delay : N) (c : Callback) (p : Page) :
  TimersInv p -> TimersInv (schedule delay c p).
Proof.
  intros [Ho Hf Hn]. constructor; cbn [schedule timersRef pendingTimers nextTimer].
  - apply Forall_app. split.
    + eapply Forall_impl; [exact Ho |]. intros t Ht. apply in_or_app. left. exact Ht.
    + constructor; [| constructor]. apply in_or_app. right. left. reflexivity.
  - apply Forall_app. split.
    + eapply Forall_impl; [exact Hf |]. intros t Ht. simpl in Ht |- *. lia.
    + constructor; [| constructor]. simpl. lia.
  - rewrite List.map_app. apply NoDup_app. split; [exact Hn |]. split.
    + intros i Hi Hi'. apply list_elem_of_In in Hi, Hi'. simpl in Hi'.
      destruct Hi' as [<- | []]. apply in_map_iff in Hi.
      destruct Hi as (t & Ht & Hin). rewrite Forall_forall in Hf.
      apply list_elem_of_In in Hin. specialize (Hf t Hin). lia.
    + simpl. apply NoDup_singleton.
Qed.

Lemma TimersInv_cleared (p : Page) :
  pendingTimers p = [] -> TimersInv p.
Proof. intros E. constructor; rewrite E; constructor. Qed.

Lemma runCallback_timers (c : Callback) (p : Page) :
  timersRef (runCallback h c p) = timersRef p
  /\ pendingTimers (runCallback h c p) = pendingTimers p
  /\ nextTimer (runCallback h c p) = nextTimer p.
Proof. destruct c; repeat split. Qed.

Lemma TimersInv_dropTimer (i : nat) (p : Page) :
  TimersInv p -> TimersInv (dropTimer i p).
Proof.
  intros [Ho Hf Hn]. constructor; cbn [dropTimer timersRef pendingTimers nextTimer].
  - apply clearTimeout_Forall, Ho.
  - apply clearTimeout_Forall, Hf.
  - apply clearTimeout_nodup, Hn.
Qed.

Lemma TimersInv_handleGenerate (p : Page) :
  TimersInv p -> TimersInv (handleGenerate h p).
Proof.
  intros Hp. unfold handleGenerate.
  assert (H1 : TimersInv (resetTimersRef (clearTimers p))).
  { apply TimersInv_cleared. apply (clearTimers_none p Hp). }
  destruct (getTone (TONES h) (toneId (form p))) as [tone|]; [| exact H1].
  destruct (getTheme (THEMES h) (themeId (form p))) as [theme|]; [| exact H1].
  cbv zeta. repeat apply TimersInv_schedule.
  eapply TimersInv_same; [| | | exact H1]; reflexivity.
Qed.

Lemma TimersInv_step (p : Page) (e : Event) :
  TimersInv p -> TimersInv (step h p e).
Proof.
  intros Hp. destruct e as [| | | u | dt | timer | ok]; cbn [step].
  - destruct (loading p); [exact Hp | apply TimersInv_handleGenerate, Hp].
  - eapply TimersInv_same; [| | | exact Hp]; reflexivity.
  - destruct (INITIAL_FORM (TONES h) (THEMES h)); [| exact Hp].
    eapply TimersInv_same; [| | | exact Hp]; reflexivity.
  - eapply TimersInv_same; [| | | exact Hp]; reflexivity.
  - eapply TimersInv_same; [| | | exact Hp]; reflexivity.
  - unfold fire.
    destruct (List.find _ (pendingTimers p)) as [t|]; [| exact Hp].
    destruct (mayFire p t); [| exact Hp].
    destruct (runCallback_timers (timer_callback t) (dropTimer timer p)) as (E1 & E2 & E3).
    eapply TimersInv_same; [exact E1 | exact E2 | exact E3 |].
    apply TimersInv_dropTimer, Hp.
  - unfold clipboardSettles. destruct (pendingWrites p) as [|w rest]; [exact Hp |].
    cbv zeta. destruct ok.
    + apply TimersInv_schedule. eapply TimersInv_same; [| | | exact Hp]; reflexivity.
    + eapply TimersInv_same; [| | | exact Hp]; reflexivity.
Qed.

End Timers.

(** ** The phases of a generation *)

Section Phases.

Variable h : Host.

Lemma Phase_same (p q : Page) :
  loading q = loading p -> pendingTimers q = pendingTimers p -> steps q = steps p ->
  Phase p -> Phase q.
Proof.
  intros E1 E2 E3 Hp.
  assert (E4 : statuses q = statuses p) by (unfold statuses; rewrite E3; reflexivity).
  destruct Hp.
  - apply phase_idle; rewrite ?E1, ?E2, ?E4; assumption.
  - eapply phase_analyze; rewrite ?E1, ?E2, ?E4; eassumption.
  - eapply phase_structure; rewrite ?E1, ?E2, ?E4; eassumption.
  - eapply phase_polish; rewrite ?E1, ?E2, ?E4; eassumption.
Qed.

Lemma Phase_copy_timer (p q : Page) (c : Timer) :
  loading q = loading p -> steps q = steps p ->
  pendingTimers q = pendingTimers p ++ [c] -> isResetCopied c ->
  Phase p -> Phase q.
Proof.
  intros E1 E3 E2 Hc Hp.
  assert (E4 : statuses q = statuses p) by (unfold statuses; rewrite E3; reflexivity).
  assert (Hadd : forall l, Forall isResetCopied l -> Forall isResetCopied (l ++ [c])).
  { intros l Hl. apply Forall_app. split; [exact Hl | constructor; [exact Hc | constructor]]. }
  destruct Hp as [Hl Hr Hs | tS tC tF copies Hl Hpend | tC tF copies Hl Hpend
                 | tF copies Hl Hpend].
  - apply phase_idle; rewrite ?E1, ?E2, ?E4; auto.
  - apply (phase_analyze q tS tC tF (copies ++ [c]));
      rewrite ?E1, ?E2, ?E4, ?Hpend; auto.
  - apply (phase_structure q tC tF (copies ++ [c]));
      rewrite ?E1, ?E2, ?E4, ?Hpend; auto.
  - apply (phase_polish q tF (copies ++ [c]));
      rewrite ?E1, ?E2, ?E4, ?Hpend; auto.
Qed.

Lemma Phase_not_loading (p : Page) :
  Phase p -> loading p = false ->
  statuses p = [] \/ statuses p = [done; done; done].
Proof. intros Hp Hl. destruct Hp; congruence. Qed.

Lemma handleGenerate_pending (p : Page) (tone : ToneOption) (theme : ThemeOption) :
  TimersInv p ->
  getTone (TONES h) (toneId (form p)) = Some tone ->
  getTheme (THEMES h) (themeId (form p)) = Some theme ->
  pendingTimers (handleGenerate h p)
  = [ mkTimer (nextTimer p) (clock p + 650) structureDone;
      mkTimer (S (nextTimer p)) (clock p + 1200)
        (composeNow (form p) tone theme (parseFeatures (featuresText (form p))));
      mkTimer (S (S (nextTimer p))) (clock p + 1750) finishRun ]
  /\ steps (handleGenerate h p) = freshSteps h tone theme
  /\ loading (handleGenerate h p) = true
  /\ form (handleGenerate h p) = form p
  /\ blueprint (handleGenerate h p) = blueprint p
  /\ copied (handleGenerate h p) = copied p
  /\ clock (handleGenerate h p) = clock p.
Proof.
  intros [Ho _ _] Et Eth. unfold handleGenerate. rewrite Et, Eth. cbv zeta.
  cbn [schedule setLoading setSteps resetTimersRef clearTimers pendingTimers
       loading steps clock nextTimer form blueprint copied].
  rewrite (clear_all _ _ Ho). repeat split.
Qed.

Lemma Phase_handleGenerate (p : Page) :
  TimersInv p -> loading p = false -> Phase p -> Phase (handleGenerate h p).
Proof.
  intros Hinv Hl Hp.
  destruct (getTone (TONES h) (toneId (form p))) as [tone|] eqn:Et;
    [destruct (getTheme (THEMES h) (themeId (form p))) as [theme|] eqn:Eth |].
  - destruct (handleGenerate_pending p tone theme Hinv Et Eth)
      as (Epend & Esteps & Eload & _).
    eapply phase_analyze; try eassumption; try reflexivity.
    + constructor.
    + simpl. eauto.
    + simpl. lia.
    + simpl. lia.
    + unfold statuses. rewrite Esteps. reflexivity.
  - unfold handleGenerate. rewrite Et, Eth. cbv zeta.
    apply phase_idle.
    + exact Hl.
    + cbn [resetTimersRef pendingTimers]. rewrite (clearTimers_none p Hinv). constructor.
    + apply (Phase_not_loading p Hp Hl).
  - unfold handleGenerate. rewrite Et. cbv zeta.
    apply phase_idle.
    + exact Hl.
    + cbn [resetTimersRef pendingTimers]. rewrite (clearTimers_none p Hinv). constructor.
    + apply (Phase_not_loading p Hp Hl).
Qed.

End Phases.

Section Firing.

Variable h : Host.

Lemma three_statuses (p : Page) (a b c : Status) :
  statuses p = [a; b; c] ->
  exists i1 t1 c1 i2 t2 c2 i3 t3 c3,
    steps p = [mkStep i1 t1 c1 a; mkStep i2 t2 c2 b; mkStep i3 t3 c3 c].
Proof.
  unfold statuses.
  destruct (steps p) as [|[i1 t1 c1 a1] [|[i2 t2 c2 a2] [|[i3 t3 c3 a3] [|s4 r]]]];
    try discriminate.
  intros [= <- <- <-]. exists i1, t1, c1, i2, t2, c2, i3, t3, c3. reflexivity.
Qed.

Lemma mayFire_blocked (p : Page) (t u : Timer) :
  In u (earlier (timer_id t) (pendingTimers p)) ->
  timer_due u <= timer_due t -> mayFire p t = false.
Proof.
  intros Hin Hle. unfold mayFire. apply andb_false_iff. right.
  apply not_true_is_false. intros H.
  rewrite forallb_forall in H. specialize (H u Hin).
  apply N.ltb_lt in H. lia.
Qed.

Lemma fired_pending (c : Callback) (i : nat) (p : Page) :
  pendingTimers (runCallback h c (dropTimer i p)) = clearTimeout i (pendingTimers p).
Proof. destruct c; reflexivity. Qed.

Lemma fired_reset (i : nat) (p : Page) :
  loading (runCallback h resetCopied (dropTimer i p)) = loading p
  /\ steps (runCallback h resetCopied (dropTimer i p)) = steps p
  /\ copied (runCallback h resetCopied (dropTimer i p)) = false.
Proof. repeat split. Qed.

Lemma Phase_fire_reset (i : nat) (p : Page) :
  TimersInv p -> Phase p ->
  (exists t, In t (pendingTimers p) /\ timer_id t = i /\ isResetCopied t) ->
  Phase (runCallback h resetCopied (dropTimer i p)).
Proof.
  intros [_ _ Hnd] Hp (t & Hin & Hid & Hreset).
  destruct (fired_reset i p) as (El & Es & _).
  assert (E4 : statuses (runCallback h resetCopied (dropTimer i p)) = statuses p)
    by (unfold statuses; rewrite Es; reflexivity).
  pose proof (fired_pending resetCopied i p) as Ep.
  assert (Hgen : forall u, In u (pendingTimers p) -> ~ isResetCopied u ->
                           timer_id u <> i).
  { intros u Hu Hnot E. apply Hnot.
    assert (u = t); [| subst; exact Hreset].
    clear - Hnd Hu Hin E Hid. induction (pendingTimers p) as [|x r IH]; [destruct Hu |].
    apply nodup_ids_cons in Hnd. destruct Hnd as [Hx Hr].
    rewrite Forall_forall in Hx.
    destruct Hu as [-> | Hu], Hin as [<- | Hin]; try reflexivity.
    - exfalso. apply (Hx t); [apply list_elem_of_In, Hin | congruence].
    - exfalso. apply (Hx u); [apply list_elem_of_In, Hu | congruence].
    - apply IH; assumption. }
  destruct Hp as [Hl Hr Hs | tS tC tF copies Hl Hpend Hc HS HC HF H1 H2 Hs
                 | tC tF copies Hl Hpend Hc HC HF H2 Hs
                 | tF copies Hl Hpend Hc HF Hs].
  - apply phase_idle; rewrite ?El, ?Ep, ?E4; try assumption.
    apply clearTimeout_Forall, Hr.
  - rewrite Hpend in Hgen.
    apply (phase_analyze _ tS tC tF (clearTimeout i copies));
      rewrite ?El, ?Ep, ?E4; try assumption; [| apply clearTimeout_Forall, Hc].
    rewrite Hpend. rewrite !clearTimeout_cons_ne; [reflexivity | | |].
    + apply Hgen; [simpl; tauto |]. unfold isResetCopied. rewrite HF. discriminate.
    + apply Hgen; [simpl; tauto |]. unfold isResetCopied.
      destruct HC as (f & tn & th & fs & ->). discriminate.
    + apply Hgen; [simpl; tauto |]. unfold isResetCopied. rewrite HS. discriminate.
  - rewrite Hpend in Hgen.
    apply (phase_structure _ tC tF (clearTimeout i copies));
      rewrite ?El, ?Ep, ?E4; try assumption; [| apply clearTimeout_Forall, Hc].
    rewrite Hpend. rewrite !clearTimeout_cons_ne; [reflexivity | |].
    + apply Hgen; [simpl; tauto |]. unfold isResetCopied. rewrite HF. discriminate.
    + apply Hgen; [simpl; tauto |]. unfold isResetCopied.
      destruct HC as (f & tn & th & fs & ->). discriminate.
  - rewrite Hpend in Hgen.
    apply (phase_polish _ tF (clearTimeout i copies));
      rewrite ?El, ?Ep, ?E4; try assumption; [| apply clearTimeout_Forall, Hc].
    rewrite Hpend. rewrite !clearTimeout_cons_ne; [reflexivity |].
    apply Hgen; [simpl; tauto |]. unfold isResetCopied. rewrite HF. discriminate.
Qed.

End Firing.

Section FiringRun.

Variable h : Host.

Lemma earlier_head (t u : Timer) (l : list Timer) :
  timer_id u <> timer_id t -> In u (earlier (timer_id t) (u :: l)).
Proof.
  intros H. simpl. apply Nat.eqb_neq in H. rewrite H. left. reflexivity.
Qed.

Lemma copies_reset (copies : list Timer) (t : Timer) :
  Forall isResetCopied copies -> In t copies -> timer_callback t = resetCopied.
Proof.
  intros H Hin. rewrite Forall_forall in H. apply H, list_elem_of_In, Hin.
Qed.

Lemma drop_head (t : Timer) (l : list Timer) :
  NoDup (List.map timer_id (t :: l)) -> clearTimeout (timer_id t) (t :: l) = l.
Proof.
  intros H. apply nodup_ids_cons in H. destruct H as [H _].
  rewrite clearTimeout_cons_eq. apply clearTimeout_notin. exact H.
Qed.

Lemma Phase_fire (timer : nat) (p : Page) :
  TimersInv p -> Phase p -> Phase (fire h timer p).
Proof.
  intros Hinv Hp. unfold fire.
  destruct (List.find _ (pendingTimers p)) as [t|] eqn:Ef; [| exact Hp].
  destruct (mayFire p t) eqn:Em; [| exact Hp].
  apply find_some in Ef. destruct Ef as [Hin Hid]. apply Nat.eqb_eq in Hid. subst timer.
  destruct (timer_callback t) as [| f tone theme fs | |] eqn:Ecb.
  - (* the 650 ms timer *)
    destruct Hinv as [_ _ Hnd].
    destruct Hp as [Hl Hr Hs | tS tC tF copies Hl Hpend Hc HS HC HF H1 H2 Hs
                   | tC tF copies Hl Hpend Hc HC HF H2 Hs
                   | tF copies Hl Hpend Hc HF Hs].
    + pose proof (copies_reset _ t Hr Hin). congruence.
    + rewrite Hpend in Hin, Hnd. destruct HC as (f & tn & th & fs & HC).
      destruct Hin as [<- | [<- | [<- | Hin]]];
        [| congruence | congruence | pose proof (copies_reset _ t Hc Hin); congruence].
      destruct (three_statuses p _ _ _ Hs)
        as (i1 & t1 & c1 & i2 & t2 & c2 & i3 & t3 & c3 & Est).
      apply (phase_structure _ tC tF copies); try assumption.
      * rewrite fired_pending, Hpend. apply drop_head, Hnd.
      * exists f, tn, th, fs. exact HC.
      * unfold statuses. cbn [runCallback setSteps dropTimer steps].
        rewrite Est. vm_compute. reflexivity.
    + rewrite Hpend in Hin. destruct HC as (f & tn & th & fs & HC).
      destruct Hin as [<- | [<- | Hin]];
        [congruence | congruence | pose proof (copies_reset _ t Hc Hin); congruence].
    + rewrite Hpend in Hin.
      destruct Hin as [<- | Hin];
        [congruence | pose proof (copies_reset _ t Hc Hin); congruence].
  - (* the 1200 ms timer *)
    destruct Hinv as [_ _ Hnd].
    destruct Hp as [Hl Hr Hs | tS tC tF copies Hl Hpend Hc HS HC HF H1 H2 Hs
                   | tC tF copies Hl Hpend Hc HC HF H2 Hs
                   | tF copies Hl Hpend Hc HF Hs].
    + pose proof (copies_reset _ t Hr Hin). congruence.
    + exfalso. rewrite Hpend in Hin, Hnd.
      destruct Hin as [<- | [<- | [<- | Hin]]];
        [congruence | | congruence | pose proof (copies_reset _ t Hc Hin); congruence].
      rewrite (mayFire_blocked p tC tS) in Em; [discriminate | | lia].
      rewrite Hpend. apply earlier_head.
      apply nodup_ids_cons in Hnd. destruct Hnd as [Hne _].
      apply Forall_cons in Hne. destruct Hne as [Hne _]. congruence.
    + rewrite Hpend in Hin, Hnd.
      destruct Hin as [<- | [<- | Hin]];
        [| congruence | pose proof (copies_reset _ t Hc Hin); congruence].
      destruct (three_statuses p _ _ _ Hs)
        as (i1 & t1 & c1 & i2 & t2 & c2 & i3 & t3 & c3 & Est).
      apply (phase_polish _ tF copies); try assumption.
      * rewrite fired_pending, Hpend. apply drop_head, Hnd.
      * unfold statuses. cbn [runCallback setSteps setBlueprint dropTimer steps].
        rewrite Est. vm_compute. reflexivity.
    + rewrite Hpend in Hin.
      destruct Hin as [<- | Hin];
        [congruence | pose proof (copies_reset _ t Hc Hin); congruence].
  - (* the 1750 ms timer *)
    destruct Hinv as [_ _ Hnd].
    destruct Hp as [Hl Hr Hs | tS tC tF copies Hl Hpend Hc HS HC HF H1 H2 Hs
                   | tC tF copies Hl Hpend Hc HC HF H2 Hs
                   | tF copies Hl Hpend Hc HF Hs].
    + pose proof (copies_reset _ t Hr Hin). congruence.
    + exfalso. rewrite Hpend in Hin, Hnd. destruct HC as (f & tn & th & fs & HC).
      destruct Hin as [<- | [<- | [<- | Hin]]];
        [congruence | congruence | | pose proof (copies_reset _ t Hc Hin); congruence].
      rewrite (mayFire_blocked p tF tS) in Em; [discriminate | | lia].
      rewrite Hpend. apply earlier_head.
      apply nodup_ids_cons in Hnd. destruct Hnd as [Hne _].
      apply Forall_cons in Hne. destruct Hne as [_ Hne].
      apply Forall_cons in Hne. destruct Hne as [Hne _]. congruence.
    + exfalso. rewrite Hpend in Hin, Hnd. destruct HC as (f & tn & th & fs & HC).
      destruct Hin as [<- | [<- | Hin]];
        [congruence | | pose proof (copies_reset _ t Hc Hin); congruence].
      rewrite (mayFire_blocked p tF tC) in Em; [discriminate | | lia].
      rewrite Hpend. apply earlier_head.
      apply nodup_ids_cons in Hnd. destruct Hnd as [Hne _].
      apply Forall_cons in Hne. destruct Hne as [Hne _]. congruence.
    + rewrite Hpend in Hin, Hnd.
      destruct Hin as [<- | Hin]; [| pose proof (copies_reset _ t Hc Hin); congruence].
      destruct (three_statuses p _ _ _ Hs)
        as (i1 & t1 & c1 & i2 & t2 & c2 & i3 & t3 & c3 & Est).
      apply phase_idle.
      * reflexivity.
      * rewrite fired_pending, Hpend, (drop_head _ _ Hnd). exact Hc.
      * right. unfold statuses. cbn [runCallback setSteps setLoading dropTimer steps].
        rewrite Est. vm_compute. reflexivity.
  - (* a timer of the Copy button *)
    apply Phase_fire_reset; [exact Hinv | exact Hp |].
    exists t. repeat split; assumption.
Qed.

Lemma Phase_step (p : Page) (e : Event) :
  TimersInv p -> Phase p -> Phase (step h p e).
Proof.
  intros Hinv Hp. destruct e as [| | | u | dt | timer | ok]; cbn [step].
  - destruct (loading p) eqn:Hl; [exact Hp | apply Phase_handleGenerate; assumption].
  - eapply Phase_same; [| | | exact Hp]; reflexivity.
  - destruct (INITIAL_FORM (TONES h) (THEMES h)); [| exact Hp].
    eapply Phase_same; [| | | exact Hp]; reflexivity.
  - eapply Phase_same; [| | | exact Hp]; reflexivity.
  - eapply Phase_same; [| | | exact Hp]; reflexivity.
  - apply Phase_fire; assumption.
  - unfold clipboardSettles. destruct (pendingWrites p) as [|w rest]; [exact Hp |].
    cbv zeta. destruct ok.
    + eapply Phase_copy_timer; [| | | | exact Hp]; reflexivity.
    + eapply Phase_same; [| | | exact Hp]; reflexivity.
Qed.

Lemma Reachable_inv (p : Page) : Reachable h p -> TimersInv p /\ Phase p.
Proof.
  induction 1 as [now p Hinit | p e _ [IH1 IH2]].
  - destruct (initialPage_view h now p Hinit) as (Hst & Hl & _ & Hpend & _).
    split; [apply TimersInv_cleared, Hpend |].
    apply phase_idle; [exact Hl | rewrite Hpend; constructor |].
    left. unfold statuses. rewrite Hst. reflexivity.
  - split; [apply TimersInv_step, IH1 | apply Phase_step; assumption].
Qed.

End FiringRun.

(** ** What holds of every page that can be reached *)

Lemma Reachable_catalogs (h : Host) (p : Page) :
  Reachable h p -> TONES h <> [] /\ THEMES h <> [].
Proof.
  induction 1 as [now p Hinit | p e _ IH]; [| exact IH].
  destruct (initialPage_view h now p Hinit) as (_ & _ & _ & _ & _ & Hf).
  unfold INITIAL_FORM in Hf.
  destruct (TONES h); [discriminate |]. destruct (THEMES h); [discriminate |].
  split; discriminate.
Qed.

(** X11: on every page that can be reached the agent steps are none, or
    the three steps with the finished ones first, then at most one active
    one, then the pending ones; and [loading] (which disables the Generate
    button) is on exactly while a step is active. *)
Theorem steps_progress (h : Host) (p : Page) :
  Reachable h p ->
  (loading p = false /\ (statuses p = [] \/ statuses p = [done; done; done]))
  \/ (loading p = true
      /\ (statuses p = [active; pending; pending]
          \/ statuses p = [done; active; pending]
          \/ statuses p = [done; done; active])).
Proof.
  intros Hr. destruct (Reachable_inv h p Hr) as [_ Hp].
  destruct Hp; [left | right | right | right]; split; auto.
Qed.

Lemma steps_progress_witness :
  exists p, initialPage demoHost 7 = Some p
            /\ statuses (run demoHost [ClickGenerate; Tick 650; Fire 0] p)
               = [done; active; pending]
            /\ loading (run demoHost [ClickGenerate; Tick 650; Fire 0] p) = true.
Proof.
  eexists. split; [vm_compute; reflexivity |].
  match goal with
  | |- statuses ?q = _ /\ _ =>
      assert (Hr : Reachable demoHost q)
  end.
  { unfold run. cbn [fold_left]. repeat apply reach_step.
    apply (reach_initial demoHost 7). vm_compute. reflexivity. }
  destruct (steps_progress demoHost _ Hr) as [[Hl _] | [Hl Hs]].
  - vm_compute in Hl. discriminate Hl.
  - split; [| exact Hl].
    destruct Hs as [Hs | [Hs | Hs]]; [vm_compute in Hs; discriminate Hs | exact Hs
                                     | vm_compute in Hs; discriminate Hs].
Defined.

(** X12: every timer still pending is recorded in [timersRef]; so the
    cleanup on unmount leaves no timer behind, and a click on Generate
    leaves only the timers of the new run, three at most. *)
Theorem timers_are_cleared (h : Host) (p : Page) :
  Reachable h p ->
  Forall (fun t => In (timer_id t) (timersRef p)) (pendingTimers p)
  /\ pendingTimers (unmount p) = []
  /\ (length (pendingTimers (handleGenerate h p)) <= 3)%nat
  /\ Forall (fun t => (nextTimer p <= timer_id t)%nat) (pendingTimers (handleGenerate h p)).
Proof.
  intros Hr. destruct (Reachable_inv h p Hr) as [Hinv _].
  split; [apply (timers_owned p Hinv) |].
  split; [apply (clearTimers_none p Hinv) |].
  destruct (Reachable_catalogs h p Hr) as [Ht Hth].
  destruct (nullish_find_member
              (fun tone => bool_decide (Generator.tone_id tone = toneId (form p)))
              (TONES h) Ht) as (tone & Etone & _).
  destruct (nullish_find_member
              (fun theme => bool_decide (Generator.theme_id theme = themeId (form p)))
              (THEMES h) Hth) as (theme & Etheme & _).
  destruct (handleGenerate_pending h p tone theme Hinv Etone Etheme) as (Epend & _).
  rewrite Epend. split; [simpl; lia |].
  repeat constructor; simpl; lia.
Qed.

Lemma timers_are_cleared_witness :
  exists p, initialPage demoHost 7 = Some p
            /\ pendingTimers
                 (unmount (run demoHost [ClickCopy; ClipboardSettles true; ClickGenerate] p))
               = [].
Proof.
  eexists. split; [vm_compute; reflexivity |].
  match goal with
  | |- pendingTimers (unmount ?q) = _ => assert (Hr : Reachable demoHost q)
  end.
  { unfold run. cbn [fold_left]. repeat apply reach_step.
    apply (reach_initial demoHost 7). vm_compute. reflexivity. }
  exact (proj1 (proj2 (timers_are_cleared demoHost _ Hr))).
Defined.

(** ** Copy, then Generate *)

Section CopiedLabel.

Variable h : Host.

Lemma copiedForGood_handleGenerate (q : Page) :
  Reachable h q -> copied q = true -> copiedForGood (handleGenerate h q).
Proof.
  intros Hr Hc. destruct (Reachable_inv h q Hr) as [Hinv _].
  destruct (Reachable_catalogs h q Hr) as [Ht Hth].
  destruct (nullish_find_member
              (fun tone => bool_decide (Generator.tone_id tone = toneId (form q)))
              (TONES h) Ht) as (tone & Etone & _).
  destruct (nullish_find_member
              (fun theme => bool_decide (Generator.theme_id theme = themeId (form q)))
              (THEMES h) Hth) as (theme & Etheme & _).
  destruct (handleGenerate_pending h q tone theme Hinv Etone Etheme)
    as (Epend & _ & _ & _ & _ & Ecop & _).
  split; [rewrite Ecop; exact Hc |].
  rewrite Epend. repeat constructor; discriminate.
Qed.

Lemma copiedForGood_step (q : Page) (e : Event) :
  Reachable h q -> isSettle e = false -> copiedForGood q -> copiedForGood (step h q e).
Proof.
  intros Hr He [Hc Hp]. destruct e as [| | | u | dt | timer | ok]; cbn [step].
  - destruct (loading q); [split; assumption |].
    apply copiedForGood_handleGenerate; assumption.
  - split; assumption.
  - destruct (INITIAL_FORM (TONES h) (THEMES h)); split; assumption.
  - split; assumption.
  - split; assumption.
  - unfold fire.
    destruct (List.find _ (pendingTimers q)) as [t|] eqn:Ef; [| split; assumption].
    destruct (mayFire q t); [| split; assumption].
    apply find_some in Ef. destruct Ef as [Hin _].
    rewrite Forall_forall in Hp. pose proof (Hp t (proj2 (list_elem_of_In _ _) Hin)) as Ht.
    split.
    + destruct (timer_callback t); [exact Hc | exact Hc | exact Hc | congruence].
    + rewrite fired_pending. apply clearTimeout_Forall.
      apply Forall_forall. exact Hp.
  - discriminate He.
Qed.

Lemma copiedForGood_run (es : list Event) (q : Page) :
  Reachable h q -> forallb (fun e => negb (isSettle e)) es = true ->
  copiedForGood q -> copiedForGood (run h es q).
Proof.
  revert q. induction es as [|e es IH]; intros q Hr Hes Hq; [exact Hq |].
  simpl in Hes. apply andb_true_iff in Hes. destruct Hes as [He Hes].
  apply negb_true_iff in He. unfold run. cbn [fold_left].
  apply IH; [apply reach_step, Hr | exact Hes | apply copiedForGood_step; assumption].
Qed.

End CopiedLabel.

(** X13: a click on Generate while the label reads "Copied" cancels the
    timer that would take the label back: whatever happens next, the page
    keeps [copied] set until another clipboard write settles. *)
Theorem generate_keeps_copied (h : Host) (p : Page) (es : list Event) :
  Reachable h p -> loading p = false -> copied p = true ->
  forallb (fun e => negb (isSettle e)) es = true ->
  copied (run h (ClickGenerate :: es) p) = true.
Proof.
  intros Hr Hl Hc Hes. unfold run. cbn [fold_left step]. rewrite Hl.
  apply (copiedForGood_run h es).
  - apply (reach_step h p ClickGenerate) in Hr. cbn [step] in Hr. rewrite Hl in Hr. exact Hr.
  - exact Hes.
  - apply copiedForGood_handleGenerate; assumption.
Qed.

Lemma generate_keeps_copied_witness :
  exists p, initialPage demoHost 7 = Some p
    /\ copied (run demoHost
                 (ClickGenerate :: [Tick 650; Fire 1; Tick 5000; Fire 0; Fire 2; Fire 3])
                 (run demoHost [ClickCopy; ClipboardSettles true] p)) = true.
Proof.
  eexists. split; [vm_compute; reflexivity |].
  apply generate_keeps_copied.
  - unfold run. cbn [fold_left]. repeat apply reach_step.
    apply (reach_initial demoHost 7). vm_compute. reflexivity.
  - vm_compute. reflexivity.
  - vm_compute. reflexivity.
  - reflexivity.
Defined.

(** ** A generation from click to export *)

Section Generation.

Variable h : Host.

Lemma run_app (a b : list Event) (p : Page) :
  run h (a ++ b) p = run h b (run h a p).
Proof. unfold run. apply fold_left_app. Qed.

Lemma view_edits (es : list Event) (q : Page) pend st bp clk ld :
  forallb isEdit es = true ->
  RunView q pend st bp clk ld -> RunView (run h es q) pend st bp clk ld.
Proof.
  revert q. induction es as [|e es IH]; intros q Hes Hq; [exact Hq |].
  simpl in Hes. apply andb_true_iff in Hes. destruct Hes as [He Hes].
  unfold run. cbn [fold_left]. apply IH; [exact Hes |].
  destruct e; try discriminate He; cbn [step].
  - exact Hq.
  - destruct (INITIAL_FORM (TONES h) (THEMES h)); exact Hq.
  - exact Hq.
Qed.

Lemma view_tick (dt : N) (q : Page) pend st bp clk ld :
  RunView q pend st bp clk ld -> RunView (step h q (Tick dt)) pend st bp (clk + dt) ld.
Proof.
  intros (E1 & E2 & E3 & E4 & E5). unfold RunView. cbn [step advanceClock
    pendingTimers steps blueprint clock loading].
  rewrite E4. repeat split; assumption.
Qed.

Lemma fire_head (q : Page) (t : Timer) (rest : list Timer) :
  pendingTimers q = t :: rest -> timer_due t <= clock q ->
  Forall (fun u => timer_id u <> timer_id t) rest ->
  fire h (timer_id t) q = runCallback h (timer_callback t) (dropTimer (timer_id t) q)
  /\ clearTimeout (timer_id t) (pendingTimers q) = rest.
Proof.
  intros Hpend Hdue Hrest. unfold fire, mayFire. rewrite Hpend.
  cbn [List.find]. rewrite Nat.eqb_refl. cbn [earlier]. rewrite Nat.eqb_refl.
  cbn [forallb]. apply N.leb_le in Hdue. rewrite Hdue. cbn [andb].
  split; [reflexivity |].
  rewrite clearTimeout_cons_eq. apply clearTimeout_notin, Hrest.
Qed.

Lemma view_fire_structure (q : Page) (t : Timer) rest st bp clk ld :
  RunView q (t :: rest) st bp clk ld ->
  timer_callback t = structureDone -> timer_due t <= clk ->
  Forall (fun u => timer_id u <> timer_id t) rest ->
  RunView (step h q (Fire (timer_id t))) rest
          (syncStep 1 active noPatch (syncStep 0 done noPatch st)) bp clk ld.
Proof.
  intros (E1 & E2 & E3 & E4 & E5) Hcb Hdue Hrest. cbn [step].
  rewrite <- E4 in Hdue. destruct (fire_head q t rest E1 Hdue Hrest) as [-> Hdrop].
  rewrite Hcb. unfold RunView.
  cbn [runCallback setSteps dropTimer pendingTimers steps blueprint clock loading].
  rewrite Hdrop, E2. repeat split; assumption.
Qed.

Lemma view_fire_compose (q : Page) (t : Timer) rest st bp clk ld f tone theme fs :
  RunView q (t :: rest) st bp clk ld ->
  timer_callback t = composeNow f tone theme fs -> timer_due t <= clk ->
  Forall (fun u => timer_id u <> timer_id t) rest ->
  RunView (step h q (Fire (timer_id t))) rest
          (syncStep 2 active noPatch (syncStep 1 done noPatch st))
          (composeBlueprint h clk (formBrief f fs) tone theme (heroLayout f)) clk ld.
Proof.
  intros (E1 & E2 & E3 & E4 & E5) Hcb Hdue Hrest. cbn [step].
  rewrite <- E4 in Hdue. destruct (fire_head q t rest E1 Hdue Hrest) as [-> Hdrop].
  rewrite Hcb. unfold RunView.
  cbn [runCallback setSteps setBlueprint dropTimer pendingTimers steps blueprint
       clock loading].
  rewrite Hdrop, E2, E4. repeat split; assumption.
Qed.

Lemma view_fire_finish (q : Page) (t : Timer) rest st bp clk ld :
  RunView q (t :: rest) st bp clk ld ->
  timer_callback t = finishRun -> timer_due t <= clk ->
  Forall (fun u => timer_id u <> timer_id t) rest ->
  RunView (step h q (Fire (timer_id t))) rest
          (syncStep 2 done
             (mkPatch None None
                (Some (js "Ready to export " ++ [BULLET; 32] ++ toLocaleTimeString h clk))
                None) st)
          bp clk false.
Proof.
  intros (E1 & E2 & E3 & E4 & E5) Hcb Hdue Hrest. cbn [step].
  rewrite <- E4 in Hdue. destruct (fire_head q t rest E1 Hdue Hrest) as [-> Hdrop].
  rewrite Hcb. unfold RunView.
  cbn [runCallback setSteps setLoading dropTimer pendingTimers steps blueprint
       clock loading].
  rewrite Hdrop, E2, E4. repeat split; assumption.
Qed.

End Generation.

(** X14: a generation runs from the form as it was at the click.  After a
    click on Generate (not loading), whatever is edited in the form while
    the three timers fire in turn, the page ends with the blueprint
    composed from the form of the click, with its tone and theme, at the
    clock of the second timer; the three steps are done, [loading] is off,
    no timer is left and the last step reads "Ready to export" with the
    time of the third timer. *)
Theorem generation_uses_form_of_click
    (h : Host) (p : Page) (es1 es2 es3 : list Event) (d1 d2 d3 : N) :
  Reachable h p -> loading p = false ->
  forallb isEdit es1 = true -> forallb isEdit es2 = true -> forallb isEdit es3 = true ->
  650 <= d1 -> 1200 <= d1 + d2 -> 1750 <= d1 + d2 + d3 ->
  exists tone theme,
    getTone (TONES h) (toneId (form p)) = Some tone
    /\ getTheme (THEMES h) (themeId (form p)) = Some theme
    /\ RunView
         (run h (ClickGenerate :: es1 ++ [Tick d1; Fire (nextTimer p)]
                   ++ es2 ++ [Tick d2; Fire (S (nextTimer p))]
                   ++ es3 ++ [Tick d3; Fire (S (S (nextTimer p)))]) p)
         []
         [ mkStep (js "analyze") (js "Decode the brief")
             (js "Understanding audience, promise, and differentiators") done;
           mkStep (js "structure") (js "Map the narrative")
             (js "Assembling hero, proof, workflow, and CTA") done;
           mkStep (js "polish") (js "Polish the layout")
             (js "Ready to export " ++ [BULLET; 32]
              ++ toLocaleTimeString h (clock p + d1 + d2 + d3)) done ]
         (composeBlueprint h (clock p + d1 + d2)
            (formBrief (form p) (parseFeatures (featuresText (form p))))
            tone theme (heroLayout (form p)))
         (clock p + d1 + d2 + d3) false.
Proof.
  intros Hr Hl He1 He2 He3 Hd1 Hd2 Hd3.
  destruct (Reachable_inv h p Hr) as [Hinv _].
  destruct (Reachable_catalogs h p Hr) as [Ht Hth].
  destruct (nullish_find_member
              (fun tone => bool_decide (Generator.tone_id tone = toneId (form p)))
              (TONES h) Ht) as (tone & Etone & _).
  destruct (nullish_find_member
              (fun theme => bool_decide (Generator.theme_id theme = themeId (form p)))
              (THEMES h) Hth) as (theme & Etheme & _).
  exists tone, theme. split; [exact Etone |]. split; [exact Etheme |].
  destruct (handleGenerate_pending h p tone theme Hinv Etone Etheme)
    as (Epend & Esteps & Eload & _ & Ebp & _ & Eclk).
  set (tS := mkTimer (nextTimer p) (clock p + 650) structureDone) in *.
  set (tC := mkTimer (S (nextTimer p)) (clock p + 1200)
               (composeNow (form p) tone theme (parseFeatures (featuresText (form p))))) in *.
  set (tF := mkTimer (S (S (nextTimer p))) (clock p + 1750) finishRun) in *.
  assert (V0 : RunView (handleGenerate h p) [tS; tC; tF] (freshSteps h tone theme)
                 (blueprint p) (clock p) true)
    by (repeat split; assumption).
  apply (view_edits h es1 _ _ _ _ _ _ He1) in V0.
  apply (view_tick h d1) in V0.
  apply (view_fire_structure h _ tS) in V0;
    [| reflexivity | simpl; lia | repeat constructor; simpl; lia].
  apply (view_edits h es2 _ _ _ _ _ _ He2) in V0.
  apply (view_tick h d2) in V0.
  apply (view_fire_compose h _ tC) with (f := form p) (tone := tone) (theme := theme)
    (fs := parseFeatures (featuresText (form p))) in V0;
    [| reflexivity | simpl; lia | repeat constructor; simpl; lia].
  apply (view_edits h es3 _ _ _ _ _ _ He3) in V0.
  apply (view_tick h d3) in V0.
  apply (view_fire_finish h _ tF) in V0;
    [| reflexivity | simpl; lia | constructor].
  unfold run in *. cbn [fold_left]. rewrite !fold_left_app. cbn [fold_left].
  change (step h p ClickGenerate) with (if loading p then p else handleGenerate h p).
  rewrite Hl.
  destruct V0 as (E1 & E2 & E3 & E4 & E5).
  repeat split; assumption.
Qed.

Lemma generation_uses_form_of_click_witness :
  exists p tone theme,
    initialPage demoHost 7 = Some p
    /\ blueprint
         (run demoHost
            (ClickGenerate :: [Edit (set_productName (js "Other"))]
               ++ [Tick 650; Fire (nextTimer p)]
               ++ [Edit (set_toneId (js "calm"))] ++ [Tick 550; Fire (S (nextTimer p))]
               ++ [ClickReset] ++ [Tick 550; Fire (S (S (nextTimer p)))]) p)
       = composeBlueprint demoHost (clock p + 650 + 550)
           (formBrief (form p) (parseFeatures (featuresText (form p))))
           tone theme (heroLayout (form p)).
Proof.
  assert (Hinit : exists p0, initialPage demoHost 7 = Some p0)
    by (eexists; vm_compute; reflexivity).
  destruct Hinit as [p0 Hinit].
  assert (Hr : Reachable demoHost p0) by (apply (reach_initial demoHost 7), Hinit).
  assert (Hl : loading p0 = false)
    by (destruct (initialPage_view demoHost 7 p0 Hinit) as (_ & Hl & _); exact Hl).
  destruct (generation_uses_form_of_click demoHost p0
              [Edit (set_productName (js "Other"))] [Edit (set_toneId (js "calm"))]
              [ClickReset] 650 550 550 Hr Hl)
    as (tone & theme & _ & _ & _ & _ & Hbp & _); try reflexivity; try lia.
  exists p0, tone, theme. split; [exact Hinit |]. exact Hbp.
Defined.

(** ** The clipboard and the form *)

Section Clipboard.

Variable h : Host.

Lemma runCallback_frame (c : Callback) (p : Page) :
  form (runCallback h c p) = form p
  /\ pendingWrites (runCallback h c p) = pendingWrites p
  /\ clipboard (runCallback h c p) = clipboard p.
Proof. destruct c; repeat split. Qed.

Lemma handleGenerate_frame (p : Page) :
  form (handleGenerate h p) = form p
  /\ pendingWrites (handleGenerate h p) = pendingWrites p
  /\ clipboard (handleGenerate h p) = clipboard p.
Proof.
  unfold handleGenerate.
  destruct (getTone (TONES h) (toneId (form p)));
    [destruct (getTheme (THEMES h) (themeId (form p))) |]; repeat split.
Qed.

Lemma fire_frame (timer : nat) (p : Page) :
  form (fire h timer p) = form p
  /\ pendingWrites (fire h timer p) = pendingWrites p
  /\ clipboard (fire h timer p) = clipboard p.
Proof.
  unfold fire. destruct (List.find _ (pendingTimers p)) as [t|]; [| repeat split].
  destruct (mayFire p t); [| repeat split].
  apply (runCallback_frame (timer_callback t) (dropTimer timer p)).
Qed.

Lemma step_keeps_clipboard (p : Page) (e : Event) :
  touchesClipboard e = false ->
  pendingWrites (step h p e) = pendingWrites p /\ clipboard (step h p e) = clipboard p.
Proof.
  intros He. destruct e as [| | | u | dt | timer | ok]; try discriminate He; cbn [step].
  - destruct (loading p); [split; reflexivity |]. apply handleGenerate_frame.
  - destruct (INITIAL_FORM (TONES h) (THEMES h)); split; reflexivity.
  - split; reflexivity.
  - split; reflexivity.
  - apply fire_frame.
Qed.

Lemma run_keeps_clipboard (es : list Event) (p : Page) :
  forallb (fun e => negb (touchesClipboard e)) es = true ->
  pendingWrites (run h es p) = pendingWrites p /\ clipboard (run h es p) = clipboard p.
Proof.
  revert p. induction es as [|e es IH]; intros p Hes; [split; reflexivity |].
  simpl in Hes. apply andb_true_iff in Hes. destruct Hes as [He Hes].
  apply negb_true_iff in He. unfold run. cbn [fold_left].
  destruct (IH (step h p e) Hes) as [E1 E2]. unfold run in E1, E2.
  destruct (step_keeps_clipboard p e He) as [E3 E4].
  rewrite E1, E2, E3, E4. split; reflexivity.
Qed.

Lemma step_form (p : Page) (e : Event) :
  form (step h p e) = editForm h (form p) e.
Proof.
  destruct e as [| | | u | dt | timer | ok]; cbn [step editForm].
  - destruct (loading p); [reflexivity | apply handleGenerate_frame].
  - reflexivity.
  - destruct (INITIAL_FORM (TONES h) (THEMES h)); reflexivity.
  - reflexivity.
  - reflexivity.
  - apply fire_frame.
  - unfold clipboardSettles. destruct (pendingWrites p); [reflexivity |].
    destruct ok; reflexivity.
Qed.

End Clipboard.

(** X15: the clipboard receives the document exported from the blueprint
    shown when Copy was clicked, also when another blueprint has been
    composed before the write settles; a write that fails leaves the
    clipboard, the label and the timers as they were. *)
Theorem copy_writes_export_of_click (h : Host) (p : Page) (es : list Event) :
  pendingWrites p = [] ->
  forallb (fun e => negb (touchesClipboard e)) es = true ->
  let q := run h (ClickCopy :: es) p in
  clipboard (step h q (ClipboardSettles true)) = Some (buildExportHtml h (blueprint p))
  /\ copied (step h q (ClipboardSettles true)) = true
  /\ clipboard (step h q (ClipboardSettles false)) = clipboard p
  /\ copied (step h q (ClipboardSettles false)) = copied q
  /\ pendingTimers (step h q (ClipboardSettles false)) = pendingTimers q.
Proof.
  intros Hw Hes q.
  destruct (run_keeps_clipboard h es (step h p ClickCopy) Hes) as [E1 E2].
  assert (Eq : pendingWrites q = [buildExportHtml h (blueprint p)]).
  { unfold q, run. cbn [fold_left]. unfold run in E1. rewrite E1.
    cbn [step handleCopy pendingWrites]. rewrite Hw. reflexivity. }
  assert (Ec : clipboard q = clipboard p).
  { unfold q, run. cbn [fold_left]. unfold run in E2. rewrite E2. reflexivity. }
  cbn [step]. unfold clipboardSettles. rewrite Eq. cbv zeta.
  cbn [schedule setCopied clipboard copied pendingTimers].
  repeat split. exact Ec.
Qed.

Lemma copy_writes_export_of_click_witness :
  exists p, initialPage demoHost 7 = Some p
    /\ clipboard
         (step demoHost
            (run demoHost (ClickCopy :: [ClickGenerate; Tick 1200; Fire 0; Fire 1]) p)
            (ClipboardSettles true))
       = Some (buildExportHtml demoHost (blueprint p)).
Proof.
  assert (Hinit : exists p0, initialPage demoHost 7 = Some p0)
    by (eexists; vm_compute; reflexivity).
  destruct Hinit as [p0 Hinit]. exists p0. split; [exact Hinit |].
  assert (Hw : pendingWrites p0 = []).
  { unfold initialPage in Hinit.
    destruct (INITIAL_FORM (TONES demoHost) (THEMES demoHost)); [| discriminate].
    destruct (buildDefaultBlueprint demoHost 7); [| discriminate].
    injection Hinit as <-. reflexivity. }
  exact (proj1 (copy_writes_export_of_click demoHost p0
                  [ClickGenerate; Tick 1200; Fire 0; Fire 1] Hw eq_refl)).
Defined.

(** X16: the form is written by the edits and by Reset and by nothing
    else: neither a generation nor a timer nor the clipboard changes what
    the user has typed. *)
Theorem form_follows_edits (h : Host) (es : list Event) (p : Page) :
  form (run h es p) = fold_left (editForm h) es (form p).
Proof.
  revert p. induction es as [|e es IH]; intros p; [reflexivity |].
  unfold run. cbn [fold_left]. rewrite <- step_form. apply IH.
Qed.

(** * The exported document and the text of the brief *)

Example composeBlueprint_blank_entries :
  Generator.items
    <$> Generator.sections
          (Generator.composeBlueprint 0
             (Generator.mkBrief (js "Acme") [] [] [] [] [[]; js "  "; js " Sync "] [] [])
             boldTone forestTheme Generator.center_layout) !! 2%nat
  = Some (Some [Generator.featureItem (js "Sync")]).
Proof. vm_compute. reflexivity. Qed.

Example composeBlueprint_acme :
  Forall (fun f => f <> [])
    (textFields (Generator.composeBlueprint 0 acmeBrief boldTone forestTheme
                   Generator.center_layout)).
Proof. vm_compute. repeat constructor; discriminate. Qed.

Section Escaping.

Import Generator.










End Escaping.

